(** * Letterboxd diary reader (Program.cpp): a shallow embedding

    The C++ program reads a diary export (CSV), turns every data line into
    a [Movie], optionally reorders the collection, prints it and prints a
    few statistics.  This file embeds the functions of Program.cpp as Rocq
    functions over byte strings and binary64 numbers and proves or refutes
    the properties stated in the specification.

    Conventions of the embedding
    - [std::string] is [string] (a sequence of 8-bit characters);
    - [std::vector<T>] is [list T], [push_back] appends at the end;
    - [double] is [spec_float] at precision 53 and maximal exponent 1024
      (IEEE 754 binary64), with the operations of the standard library's
      [SpecFloat];
    - [size_t] positions are [nat], [string::npos] is [None];
    - what the program writes to [cout] and [cerr] is kept as two strings. *)

From Stdlib Require Import Bool List Arith ZArith Lia Ascii String.
From Stdlib Require Import Permutation Sorted SpecFloat DecimalString.
Import ListNotations.
Open Scope string_scope.

(* ================================================================== *)
(** * Part I. Definitions                                               *)
(* ================================================================== *)

(** ** Characters and the [std::string] operations the program uses *)

Module StdString.

Definition quote : ascii := "034"%char.
Definition comma : ascii := ","%char.
Definition tab : ascii := "009"%char.
Definition lf : ascii := "010"%char.
Definition cr : ascii := "013"%char.

(** One-character string, and the string made of a single quote. *)
Definition str1 (c : ascii) : string := String c EmptyString.
Definition dq : string := str1 quote.

(** [mem c set]: does [c] occur in [set]? *)
Fixpoint mem (c : ascii) (set : string) : bool :=
  match set with
  | EmptyString => false
  | String d rest => Ascii.eqb c d || mem c rest
  end.

(** [str.find_first_not_of(set)]. *)
Fixpoint find_first_not_of (str set : string) : option nat :=
  match str with
  | EmptyString => None
  | String c rest =>
      if mem c set then option_map S (find_first_not_of rest set)
      else Some 0
  end.

(** [str.find_last_not_of(set)]. *)
Fixpoint find_last_not_of (str set : string) : option nat :=
  match str with
  | EmptyString => None
  | String c rest =>
      match find_last_not_of rest set with
      | Some i => Some (S i)
      | None => if mem c set then None else Some 0
      end
  end.

(** [str.substr(pos, count)] for [pos <= str.length()]: the count is
    clipped at the end of the string. *)
Definition substr (str : string) (pos count : nat) : string :=
  String.substring pos count str.

(** [str.empty()]. *)
Definition empty (str : string) : bool :=
  match str with EmptyString => true | _ => false end.

(** [str += c]. *)
Definition push_char (str : string) (c : ascii) : string :=
  str ++ str1 c.

(** [a < b] on [std::string]: lexicographic on unsigned bytes. *)
Definition less (a b : string) : bool := String.ltb a b.

End StdString.

Import StdString.

(** ** [struct Movie] *)

Record Movie : Type := mkMovie {
  date : string;
  name : string;
  year : string;
  letterboxdURI : string;
  rating : string;
  rewatch : string;
  tags : string;
  watchedDate : string
}.

(** ** [trim] (Program.cpp, lines 24-31) *)

(** The character set of the source literal: space, tab, carriage return,
    line feed and the double quote. *)
Definition trim_set : string :=
  String " " (String tab (String cr (String lf (String quote EmptyString)))).

(** [last] cannot be [npos] once [first] is not (lemma [trim_last_found]);
    in that unreachable branch the C++ count [npos - first + 1] wraps to a
    value at least as large as the string, which [substr] clips to the
    rest of the string. *)
Definition trim (str : string) : string :=
  match find_first_not_of str trim_set with
  | None => ""
  | Some first =>
      match find_last_not_of str trim_set with
      | Some last => substr str first (last - first + 1)
      | None => substr str first (String.length str)
      end
  end.

(** ** [parseCSVLine] (lines 34-58) *)

(** The three locals of the loop. *)
Record ParseState : Type := mkParseState {
  ps_fields : list string;
  ps_field : string;
  ps_inQuotes : bool
}.

Definition parse_init : ParseState := mkParseState [] "" false.

(** One iteration of the [for] loop on character [c]. *)
Definition parse_step (st : ParseState) (c : ascii) : ParseState :=
  if Ascii.eqb c quote then
    mkParseState (ps_fields st) (ps_field st) (negb (ps_inQuotes st))
  else if Ascii.eqb c comma && negb (ps_inQuotes st) then
    mkParseState (ps_fields st ++ [trim (ps_field st)]) "" (ps_inQuotes st)
  else
    mkParseState (ps_fields st) (push_char (ps_field st) c) (ps_inQuotes st).

Fixpoint parse_loop (line : string) (st : ParseState) : ParseState :=
  match line with
  | EmptyString => st
  | String c rest => parse_loop rest (parse_step st c)
  end.

Definition parseCSVLine (line : string) : list string :=
  let st := parse_loop line parse_init in
  ps_fields st ++ [trim (ps_field st)].

(** Invariant of the loop: no quote in the field being accumulated nor in
    the finished ones. *)
Definition quote_free (st : ParseState) : Prop :=
  mem quote (ps_field st) = false /\
  Forall (fun f => mem quote f = false) (ps_fields st).


(** ** [double]: IEEE 754 binary64 *)

Module Double.

Definition double : Type := spec_float.
Definition prec : Z := 53.
Definition emax : Z := 1024.

(** The literals [0.0] and [0.5]. *)
Definition zero : double := S754_zero false.
Definition half : double := S754_finite false 4503599627370496 (-53).

(** Conversion of an [int] to [double] (exact for an [int]). *)
Definition of_Z (z : Z) : double := binary_normalize prec emax z 0 false.

Definition add : double -> double -> double := SFadd prec emax.
Definition sub : double -> double -> double := SFsub prec emax.
Definition div : double -> double -> double := SFdiv prec emax.

(** [a == b], [a < b], [a > b], [a >= b]: all false on a NaN. *)
Definition eqb : double -> double -> bool := SFeqb.
Definition ltb : double -> double -> bool := SFltb.
Definition gtb (a b : double) : bool := SFltb b a.
Definition geb (a b : double) : bool := SFleb b a.

Definition is_nan (x : double) : bool :=
  match x with S754_nan => true | _ => false end.

Definition is_inf (x : double) : bool :=
  match x with S754_infinity _ => true | _ => false end.

(** Zero, or a value below the smallest normal number. *)
Definition subnormal_or_zero (x : double) : bool :=
  match x with
  | S754_zero _ => true
  | S754_finite _ m _ => negb (Zpos (digits2_pos m) =? prec)%Z
  | _ => false
  end.

(** The integer part of a finite value (rounding toward zero). *)
Definition trunc (x : double) : option Z :=
  match x with
  | S754_zero _ => Some 0%Z
  | S754_finite s m e =>
      Some (cond_Zopp s (match e with
                         | Zneg p => Z.shiftr (Zpos m) (Zpos p)
                         | _ => Z.shiftl (Zpos m) e
                         end))
  | _ => None
  end.

(** The cast [(int)x].  C++ leaves it undefined when the integer part
    does not fit a 32-bit [int] (and on infinities and NaN): [None]. *)
Definition to_int (x : double) : option Z :=
  match trunc x with
  | Some z =>
      if ((- 2 ^ 31 <=? z) && (z <=? 2 ^ 31 - 1))%Z then Some z else None
  | None => None
  end.

(** A totally ordered image of the numbers: two values that are not NaN
    compare as their ranks do, lexicographically ([SFcompare_rank]).
    The two zeros share a rank. *)
Definition rank (x : double) : Z * Z * Z :=
  match x with
  | S754_nan => (3, 0, 0)
  | S754_infinity true => (-2, 0, 0)
  | S754_finite true m e => (-1, - e, Zneg m)
  | S754_zero _ => (0, 0, 0)
  | S754_finite false m e => (1, e, Zpos m)
  | S754_infinity false => (2, 0, 0)
  end%Z.

Definition rank_compare (a b : Z * Z * Z) : comparison :=
  let '(a1, a2, a3) := a in
  let '(b1, b2, b3) := b in
  match (a1 ?= b1)%Z with
  | Eq => match (a2 ?= b2)%Z with
          | Eq => (a3 ?= b3)%Z
          | c => c
          end
  | c => c
  end.

Definition rank_le (a b : Z * Z * Z) : Prop := rank_compare a b <> Gt.

End Double.

Import Double.

(** ** The C library's [strtod] and [std::stod]

    [safeStringToDouble] calls [std::stod], which the C++ library defines
    through [strtod].  The model follows the C standard's description of
    [strtod] in the C locale: leading white space, an optional sign, then
    a decimal number with an optional exponent, a hexadecimal number with
    an optional binary exponent, [inf]/[infinity] or [nan] with an
    optional parenthesised tail, letters in any case.  The value is the
    nearest binary64 number, ties to even.

    The standard lets the library decide whether an underflowing result
    sets [ERANGE]; here it does as soon as a nonzero number is read as
    zero or as a subnormal value.  No property below depends on that. *)

Module CStdlib.

Definition code (c : ascii) : N := N_of_ascii c.

Definition isspace (c : ascii) : bool :=
  ((9 <=? code c) && (code c <=? 13) || (code c =? 32))%N.

Definition tolower (c : ascii) : ascii :=
  if ((65 <=? code c) && (code c <=? 90))%N
  then ascii_of_N (code c + 32) else c.

Definition dec_digit (c : ascii) : option Z :=
  if ((48 <=? code c) && (code c <=? 57))%N
  then Some (Z.of_N (code c - 48)) else None.

Definition hex_digit (c : ascii) : option Z :=
  match dec_digit c with
  | Some d => Some d
  | None =>
      let l := code (tolower c) in
      if ((97 <=? l) && (l <=? 102))%N then Some (Z.of_N (l - 87)) else None
  end.

Fixpoint skip_space (s : string) : string :=
  match s with
  | String c r => if isspace c then skip_space r else s
  | EmptyString => s
  end.

(** An optional sign: is it a minus, and what follows it. *)
Definition take_sign (s : string) : bool * string :=
  match s with
  | String c r =>
      if Ascii.eqb c "-" then (true, r)
      else if Ascii.eqb c "+" then (false, r)
      else (false, s)
  | EmptyString => (false, s)
  end.

(** The longest run of digits: its value on top of [acc], how many
    digits were read on top of [n], and what follows. *)
Fixpoint scan_digits (base : Z) (digit : ascii -> option Z) (s : string)
    (acc : Z) (n : Z) : Z * Z * string :=
  match s with
  | String c r =>
      match digit c with
      | Some d => scan_digits base digit r (acc * base + d)%Z (n + 1)%Z
      | None => (acc, n, s)
      end
  | EmptyString => (acc, n, s)
  end.

(** Digits with an optional point among them, one digit at least: the
    digits read as one integer, the number of digits after the point,
    and what follows. *)
Definition scan_mantissa (base : Z) (digit : ascii -> option Z)
    (s : string) : option (Z * Z * string) :=
  let '(m1, n1, r1) := scan_digits base digit s 0%Z 0%Z in
  match r1 with
  | String "." r2 =>
      let '(m2, n2, r3) := scan_digits base digit r2 m1 0%Z in
      if (n1 + n2 =? 0)%Z then None else Some (m2, n2, r3)
  | _ => if (n1 =? 0)%Z then None else Some (m1, 0%Z, r1)
  end.

(** An optional exponent part: the marker letter, an optional sign and
    one digit at least; otherwise nothing is consumed. *)
Definition scan_exponent (marker : ascii) (s : string) : Z * string :=
  match s with
  | String c r =>
      if Ascii.eqb (tolower c) marker then
        let '(neg, r1) := take_sign r in
        let '(e, n, r2) := scan_digits 10 dec_digit r1 0%Z 0%Z in
        if (n =? 0)%Z then (0%Z, s) else ((if neg then - e else e)%Z, r2)
      else (0%Z, s)
  | EmptyString => (0%Z, s)
  end.

(** [strip_prefix_ci p s]: what follows [p] in [s], letters of [s] in
    any case ([p] is in lower case). *)
Fixpoint strip_prefix_ci (p s : string) : option string :=
  match p, s with
  | EmptyString, _ => Some s
  | String a p', String b s' =>
      if Ascii.eqb a (tolower b) then strip_prefix_ci p' s' else None
  | String _ _, EmptyString => None
  end.

(** Digits, letters and the underscore, allowed between the parentheses
    after [nan]. *)
Definition is_nchar (c : ascii) : bool :=
  match dec_digit c with
  | Some _ => true
  | None =>
      let l := code (tolower c) in
      ((97 <=? l) && (l <=? 122) || (code c =? 95))%N
  end.

Fixpoint skip_nchars (s : string) : string :=
  match s with
  | String c r => if is_nchar c then skip_nchars r else s
  | EmptyString => s
  end.

Definition scan_nan_tail (s : string) : string :=
  match s with
  | String "(" r =>
      match skip_nchars r with
      | String ")" r' => r'
      | _ => s
      end
  | _ => s
  end.

(** What was read after the sign: [m * 10 ^ e10] or [m * 2 ^ e2]. *)
Inductive number : Type :=
| NInf
| NNan
| NDec (m e10 : Z)
| NHex (m e2 : Z).

(** A [0x] that no hexadecimal digit follows is the decimal [0] followed
    by an [x]. *)
Definition scan_number (s : string) : option (number * string) :=
  match strip_prefix_ci "infinity" s with
  | Some r => Some (NInf, r)
  | None =>
  match strip_prefix_ci "inf" s with
  | Some r => Some (NInf, r)
  | None =>
  match strip_prefix_ci "nan" s with
  | Some r => Some (NNan, scan_nan_tail r)
  | None =>
  match strip_prefix_ci "0x" s with
  | Some r =>
      match scan_mantissa 16 hex_digit r with
      | Some (m, nf, r1) =>
          let '(e, r2) := scan_exponent "p" r1 in
          Some (NHex m (e - 4 * nf), r2)
      | None => Some (NDec 0 0, String.substring 1 (String.length s) s)
      end
  | None =>
      match scan_mantissa 10 dec_digit s with
      | Some (m, nf, r1) =>
          let '(e, r2) := scan_exponent "e" r1 in
          Some (NDec m (e - nf), r2)
      | None => None
      end
  end end end end.

(** The nearest binary64 number. *)
Definition magnitude (x : number) : double :=
  match x with
  | NInf => S754_infinity false
  | NNan => S754_nan
  | NDec m e10 =>
      match m with
      | Zpos p =>
          if (0 <=? e10)%Z
          then binary_normalize prec emax (m * 10 ^ e10) 0 false
          else div (S754_finite false p 0)
                   (S754_finite false (Z.to_pos (10 ^ (- e10))) 0)
      | _ => S754_zero false
      end
  | NHex m e2 => binary_normalize prec emax m e2 false
  end.

Definition range_error (x : number) (v : double) : bool :=
  match x with
  | NDec (Zpos _) _ | NHex (Zpos _) _ => is_inf v || subnormal_or_zero v
  | _ => false
  end.

(** The value, the number of characters consumed ([endptr - str]) and
    whether [errno] is [ERANGE] afterwards. *)
Record strtod_result : Type := mkStrtod {
  sr_value : double;
  sr_end : nat;
  sr_erange : bool
}.

(** [None]: no conversion could be performed ([endptr == str]). *)
Definition strtod (s : string) : option strtod_result :=
  let '(neg, r) := take_sign (skip_space s) in
  match scan_number r with
  | None => None
  | Some (x, rest) =>
      let v := magnitude x in
      Some (mkStrtod (if neg then SFopp v else v)
                     (String.length s - String.length rest)
                     (range_error x v))
  end.

(** [std::stod(str, &idx)]: the value and [idx], or one of the two
    exceptions it throws. *)
Inductive stod_outcome : Type :=
| stod_ok (value : double) (idx : nat)
| stod_invalid_argument
| stod_out_of_range.

Definition stod (str : string) : stod_outcome :=
  match strtod str with
  | None => stod_invalid_argument
  | Some r =>
      if sr_erange r then stod_out_of_range
      else stod_ok (sr_value r) (sr_end r)
  end.

End CStdlib.

Import CStdlib.

(** ** [safeStringToDouble] (lines 61-76) *)

(** The [catch (...)] clause turns both exceptions of [stod] into [0.0]. *)
Definition safeStringToDouble (str : string) : double :=
  if empty str then zero
  else
    match stod str with
    | stod_ok value idx =>
        if negb (Nat.eqb idx (String.length str)) then zero else value
    | stod_invalid_argument => zero
    | stod_out_of_range => zero
    end.

(** ** [ratingToStars] (lines 166-186) *)

(** The bytes of the half marker in the source file (the UTF-8 encoding of
    the fraction one half, 0xC2 0xBD). *)
Definition half_marker : string := String "194" (String "189" EmptyString).

(** The [for] loop appending one star [fullStars] times (none when
    [fullStars] is not positive). *)
Fixpoint star_loop (fullStars : nat) (stars : string) : string :=
  match fullStars with
  | 0 => stars
  | S n => star_loop n (stars ++ "*")
  end.

(** [None] when the cast to [int] is undefined. *)
Definition ratingToStars (rating : string) : option string :=
  if empty rating then Some ""
  else
    let ratingValue := safeStringToDouble rating in
    if Double.eqb ratingValue zero then Some ""
    else
      match to_int ratingValue with
      | None => None
      | Some fullStars =>
          let halfStar := geb (sub ratingValue (of_Z fullStars)) half in
          let stars := star_loop (Z.to_nat fullStars) "" in
          let stars := if halfStar then stars ++ half_marker else stars in
          Some (stars ++ " (" ++ rating ++ "/5)")
      end.

(** ** [readLetterboxdCSV] (lines 79-163) *)

(** The file system as the reader sees it: the characters the stream of a
    file delivers, or [None] when neither attempt to open it succeeds. *)
Definition FileSystem : Type := string -> option string.

(** What has been written to [cout] and to [cerr]. *)
Record Console : Type := mkConsole {
  cout : string;
  cerr : string
}.

Definition endl : string := str1 lf.

(** [stream << n] for a non-negative integer. *)
Definition show_nat (n : nat) : string :=
  NilEmpty.string_of_uint (Nat.to_uint n).

(** The lines successive calls of [getline(file, line)] deliver: the text
    between line feeds; what follows the last line feed is a line only
    when it is not empty. *)
Fixpoint getlines_from (content : string) (line : string) : list string :=
  match content with
  | EmptyString => if empty line then [] else [line]
  | String c rest =>
      if Ascii.eqb c lf then line :: getlines_from rest ""
      else getlines_from rest (push_char line c)
  end.

Definition getlines (content : string) : list string :=
  getlines_from content "".

(** [line[line.length() - 1]], for a non-empty line. *)
Fixpoint last_char (line : string) : option ascii :=
  match line with
  | EmptyString => None
  | String c EmptyString => Some c
  | String _ rest => last_char rest
  end.

(** Lines 110-112: drop one trailing carriage return. *)
Definition strip_cr (line : string) : string :=
  match last_char line with
  | Some c =>
      if Ascii.eqb c cr then substr line 0 (String.length line - 1) else line
  | None => line
  end.

(** Lines 135-143: one field per column, the empty string where the line
    has no such column. *)
Definition movie_of_fields (fields : list string) : Movie :=
  mkMovie (nth 0 fields "") (nth 1 fields "") (nth 2 fields "")
          (nth 3 fields "") (nth 4 fields "") (nth 5 fields "")
          (nth 6 fields "") (nth 7 fields "").

(** The locals of the [while] loop, with the console.  [lineNumber] is an
    [int] in the source; it does not overflow on a file of fewer than 2^31
    lines. *)
Record ReaderState : Type := mkReaderState {
  rs_movies : list Movie;
  rs_lineNumber : nat;
  rs_isFirstLine : bool;
  rs_console : Console
}.

Definition print (s : string) (c : Console) : Console :=
  mkConsole (cout c ++ s) (cerr c).

Definition eprint (s : string) (c : Console) : Console :=
  mkConsole (cout c) (cerr c ++ s).

(** One iteration of the [while] loop on the line [getline] delivered.
    Nothing in the [try] block throws short of memory exhaustion, so the
    two [catch] clauses are not entered. *)
Definition reader_step (st : ReaderState) (line0 : string) : ReaderState :=
  let lineNumber := S (rs_lineNumber st) in
  let line := strip_cr line0 in
  if rs_isFirstLine st then
    mkReaderState (rs_movies st) lineNumber false
      (print ("CSV Header: " ++ line ++ endl ++ endl) (rs_console st))
  else if empty line then
    mkReaderState (rs_movies st) lineNumber false (rs_console st)
  else
    let fields := parseCSVLine line in
    let console :=
      if Nat.eqb lineNumber 2 then
        print ("First data line has " ++ show_nat (List.length fields)
                 ++ " fields" ++ endl ++ endl) (rs_console st)
      else rs_console st in
    if Nat.leb 2 (List.length fields) then
      mkReaderState (rs_movies st ++ [movie_of_fields fields])
        lineNumber false console
    else
      mkReaderState (rs_movies st) lineNumber false console.

Definition reader_init : ReaderState :=
  mkReaderState [] 0 true (mkConsole "" "").

Definition reader_loop (lines : list string) (st : ReaderState)
    : ReaderState :=
  fold_left reader_step lines st.

(** The returned vector and what the call wrote. *)
Record ReadResult : Type := mkReadResult {
  rr_movies : list Movie;
  rr_console : Console
}.

Definition open_error (filename : string) : string :=
  "Error: Could not open file '" ++ filename ++ "'" ++ endl
  ++ "Please check that:" ++ endl
  ++ "  - The file path is correct" ++ endl
  ++ "  - The file exists" ++ endl
  ++ "  - You have permission to read the file" ++ endl.

Definition readLetterboxdCSV (fs : FileSystem) (filename : string)
    : ReadResult :=
  match fs filename with
  | None => mkReadResult [] (mkConsole "" (open_error filename))
  | Some content =>
      let st := reader_loop (getlines content) reader_init in
      mkReadResult (rs_movies st)
        (print ("Successfully read " ++ show_nat (List.length (rs_movies st))
                  ++ " movies from CSV" ++ endl ++ endl) (rs_console st))
  end.

(** The three things the reader prints for a readable file. *)
Definition header_note (header : string) : string :=
  "CSV Header: " ++ strip_cr header ++ endl ++ endl.

Definition first_line_note (rest : list string) : string :=
  match rest with
  | [] => ""
  | l :: _ =>
      if empty (strip_cr l) then ""
      else "First data line has "
             ++ show_nat (List.length (parseCSVLine (strip_cr l)))
             ++ " fields" ++ endl ++ endl
  end.

Definition success_note (n : nat) : string :=
  "Successfully read " ++ show_nat n ++ " movies from CSV" ++ endl ++ endl.

(** ** [main]: the report on what the reader returned (lines 271-287)

    [main] has the returned vector and nothing else to go by. *)

Definition rule : string := "========================================".

Definition no_movies_report : string :=
  rule ++ endl
  ++ "No movies found or error reading file." ++ endl
  ++ rule ++ endl
  ++ endl
  ++ "Troubleshooting tips:" ++ endl
  ++ "- Make sure you selected 'diary.csv' (not 'watched.csv' or other files)"
  ++ endl
  ++ "- Check that the file isn't empty" ++ endl
  ++ "- Try extracting the ZIP file again" ++ endl
  ++ endl ++ "Press Enter to exit...".

Definition found_report (movies : list Movie) : string :=
  rule ++ endl
  ++ "Found " ++ show_nat (List.length movies) ++ " watched movies!" ++ endl
  ++ rule ++ endl ++ endl.

(** What [main] prints, and whether it then returns without going on to
    the report proper. *)
Definition report_on_read (movies : list Movie) : string * bool :=
  match movies with
  | [] => (no_movies_report, true)
  | _ :: _ => (found_report movies, false)
  end.

(** A file system with one file. *)
Definition one_file (path content : string) : FileSystem :=
  fun p => if String.eqb p path then Some content else None.

(** The data lines of a file: every line after the first, without its
    trailing carriage return, that is not empty. *)
Definition data_lines (content : string) : list string :=
  filter (fun l => negb (empty l)) (map strip_cr (tl (getlines content))).

(** What the specification calls a malformed line: a data line whose field
    sequence has fewer than two fields. *)
Definition malformed (line : string) : bool :=
  Nat.ltb (List.length (parseCSVLine line)) 2.

Definition skipped_count (content : string) : nat :=
  List.length (filter malformed (data_lines content)).

(** [c] is [Lt]. *)
Definition is_lt (c : comparison) : bool :=
  match c with Lt => true | _ => false end.

(** ** [std::sort]

    The C++ standard promises of [std::sort(first, last, comp)], when
    [comp] is a strict weak ordering of the elements, that the range ends
    up a permutation of what it was in which no element is followed,
    however far, by one that [comp] puts before it.  It promises nothing
    about the order of elements that [comp] does not tell apart, and
    nothing at all when [comp] is not a strict weak ordering. *)

Section StdSortContract.

Context {A : Type}.
Variable comp : A -> A -> bool.

(** Neither is before the other. *)
Definition equiv (a b : A) : bool := negb (comp a b) && negb (comp b a).

Record strict_weak_on (l : list A) : Prop := mkStrictWeak {
  swo_irrefl : forall a, In a l -> comp a a = false;
  swo_trans : forall a b c, In a l -> In b l -> In c l ->
    comp a b = true -> comp b c = true -> comp a c = true;
  swo_equiv_trans : forall a b c, In a l -> In b l -> In c l ->
    equiv a b = true -> equiv b c = true -> equiv a c = true
}.

Definition sorted_by (l : list A) : Prop :=
  StronglySorted (fun a b => comp b a = false) l.

Definition std_sort_post (before after : list A) : Prop :=
  Permutation before after /\ sorted_by after.

(** Insertion sort, which shows that an outcome exists. *)
Fixpoint insert_by (x : A) (l : list A) : list A :=
  match l with
  | [] => [x]
  | y :: t => if comp x y then x :: l else y :: insert_by x t
  end.

Definition isort (l : list A) : list A := fold_right insert_by [] l.

(** Stability: the elements with the same key as [x] come in the order
    they had. *)
Definition stable (same_key : A -> A -> bool) (before after : list A)
    : Prop :=
  forall x, filter (same_key x) after = filter (same_key x) before.

End StdSortContract.

(** ** [main]: the ordering of the collection (lines 302-317) *)

(** The two lambdas. *)
Definition by_name (a b : Movie) : bool := less (name a) (name b).

Definition rating_value (m : Movie) : double := safeStringToDouble (rating m).

Definition by_rating (a b : Movie) : bool :=
  gtb (rating_value a) (rating_value b).

(** The value of the variable [movies] before and after the [if] chain.
    [reverse] and [sort] work in place on the one vector the program has.
    The outcome of [sort] is any the standard allows; there is none when
    the comparison is not a strict weak ordering of the records (a rating
    that reads as NaN), where the behaviour is undefined.  That case is
    an outcome of its own in [ordering_step], which has one on every
    input, and [gnu_ordering_step] runs the [sort] of the GNU library
    there. *)
Inductive sort_step (sortChoice : string) (movies : list Movie)
    : list Movie -> Prop :=
| sort_oldest_first :
    sortChoice = "2" ->
    sort_step sortChoice movies (rev movies)
| sort_alphabetical (after : list Movie) :
    sortChoice = "3" ->
    strict_weak_on by_name movies ->
    std_sort_post by_name movies after ->
    sort_step sortChoice movies after
| sort_highest_rated (after : list Movie) :
    sortChoice = "4" ->
    strict_weak_on by_rating movies ->
    std_sort_post by_rating movies after ->
    sort_step sortChoice movies after
| sort_default :
    sortChoice <> "2" -> sortChoice <> "3" -> sortChoice <> "4" ->
    sort_step sortChoice movies movies.

(** Equal primary keys. *)
Definition same_name (a b : Movie) : bool := String.eqb (name a) (name b).

Definition same_rating (a b : Movie) : bool :=
  Double.eqb (rating_value a) (rating_value b).

(** ** [std::sort] in the GNU C++ library (bits/stl_algo.h)

    The introsort of libstdc++ on a whole vector, positions counted from
    the start of the vector.  [None] stands for an access outside the
    vector (possible only when [comp] is not a strict weak ordering) and
    for the heap sort that replaces quick sort once the depth limit is
    used up, which is not modelled. *)

Module GnuSort.
Section WithComp.

Local Open Scope nat_scope.

Context {A : Type}.
Variable comp : A -> A -> bool.

Definition bind {X Y : Type} (x : option X) (f : X -> option Y)
    : option Y :=
  match x with Some v => f v | None => None end.

Local Notation "x <- e ;; k" := (bind e (fun x => k))
  (at level 61, e at next level, right associativity).

Definition get (a : list A) (i : nat) : option A := nth_error a i.

Fixpoint set (a : list A) (i : nat) (x : A) : list A :=
  match a, i with
  | [], _ => []
  | _ :: t, 0 => x :: t
  | h :: t, S j => h :: set t j x
  end.

Definition iter_swap (a : list A) (i j : nat) : option (list A) :=
  x <- get a i ;; y <- get a j ;; Some (set (set a i y) j x).

Definition _S_threshold : nat := 16.

(** [__move_median_to_first(result, a, b, c, comp)]. *)
Definition move_median_to_first (v : list A) (result a b c : nat)
    : option (list A) :=
  xa <- get v a ;; xb <- get v b ;; xc <- get v c ;;
  if comp xa xb then
    if comp xb xc then iter_swap v result b
    else if comp xa xc then iter_swap v result c
    else iter_swap v result a
  else if comp xa xc then iter_swap v result a
  else if comp xb xc then iter_swap v result c
  else iter_swap v result b.

(** The loop of [__unguarded_linear_insert(last, comp)], after [val] has
    been taken out of position [last]. *)
Fixpoint linear_insert_loop (val : A) (v : list A) (last : nat)
    : option (list A) :=
  match last with
  | 0 => None
  | S next =>
      x <- get v next ;;
      if comp val x then linear_insert_loop val (set v last x) next
      else Some (set v last val)
  end.

Definition unguarded_linear_insert (v : list A) (last : nat)
    : option (list A) :=
  val <- get v last ;; linear_insert_loop val v last.

(** [std::move_backward(first, i, i + 1); *first = val]. *)
Definition rotate_to_first (v : list A) (first i : nat) (val : A)
    : list A :=
  firstn first v ++ val :: firstn (i - first) (skipn first v)
    ++ skipn (S i) v.

(** The [for] loop of [__insertion_sort(first, last, comp)] from [i] on,
    [count] iterations. *)
Fixpoint insertion_loop (count : nat) (v : list A) (first i : nat)
    : option (list A) :=
  match count with
  | 0 => Some v
  | S n =>
      xi <- get v i ;; xf <- get v first ;;
      v' <- (if comp xi xf then Some (rotate_to_first v first i xi)
             else unguarded_linear_insert v i) ;;
      insertion_loop n v' first (S i)
  end.

Definition insertion_sort (v : list A) (first last : nat)
    : option (list A) :=
  if first =? last then Some v
  else insertion_loop (last - S first) v first (S first).

(** [__unguarded_insertion_sort(first, last, comp)], [count] iterations. *)
Fixpoint unguarded_insertion_loop (count : nat) (v : list A) (i : nat)
    : option (list A) :=
  match count with
  | 0 => Some v
  | S n =>
      v' <- unguarded_linear_insert v i ;;
      unguarded_insertion_loop n v' (S i)
  end.

Definition final_insertion_sort (v : list A) (first last : nat)
    : option (list A) :=
  if _S_threshold <? last - first then
    v' <- insertion_sort v first (first + _S_threshold) ;;
    unguarded_insertion_loop (last - (first + _S_threshold)) v'
      (first + _S_threshold)
  else insertion_sort v first last.

(** [while (comp(first, pivot)) ++first;] *)
Fixpoint scan_up (fuel : nat) (v : list A) (first pivot : nat)
    : option nat :=
  match fuel with
  | 0 => None
  | S n =>
      x <- get v first ;; p <- get v pivot ;;
      if comp x p then scan_up n v (S first) pivot else Some first
  end.

(** [while (comp(pivot, last)) --last;] *)
Fixpoint scan_down (v : list A) (pivot last : nat) : option nat :=
  p <- get v pivot ;; x <- get v last ;;
  if comp p x then
    match last with
    | 0 => None
    | S l => scan_down v pivot l
    end
  else Some last.

(** [__unguarded_partition(first, last, pivot, comp)]. *)
Fixpoint unguarded_partition (fuel : nat) (v : list A)
    (first last pivot : nat) : option (list A * nat) :=
  match fuel with
  | 0 => None
  | S n =>
      first1 <- scan_up (List.length v) v first pivot ;;
      match last with
      | 0 => None
      | S last0 =>
          last1 <- scan_down v pivot last0 ;;
          if negb (first1 <? last1) then Some (v, first1)
          else
            v' <- iter_swap v first1 last1 ;;
            unguarded_partition n v' (S first1) last1 pivot
      end
  end.

(** [__unguarded_partition_pivot(first, last, comp)]. *)
Definition unguarded_partition_pivot (v : list A) (first last : nat)
    : option (list A * nat) :=
  let mid := first + (last - first) / 2 in
  v' <- move_median_to_first v first (first + 1) mid (last - 1) ;;
  unguarded_partition (List.length v) v' (first + 1) last first.

(** [__introsort_loop(first, last, depth_limit, comp)]: every turn of
    the [while] loop and every recursive call lowers [depth_limit]. *)
Fixpoint introsort_loop (depth_limit : nat) (v : list A)
    (first last : nat) : option (list A) :=
  if _S_threshold <? last - first then
    match depth_limit with
    | 0 => None
    | S d =>
        r <- unguarded_partition_pivot v first last ;;
        let '(v1, cut) := r in
        v2 <- introsort_loop d v1 cut last ;;
        introsort_loop d v2 first cut
    end
  else Some v.

(** [std::sort(v.begin(), v.end(), comp)]. *)
Definition sort (v : list A) : option (list A) :=
  let n := List.length v in
  if n =? 0 then Some v
  else
    v' <- introsort_loop (Nat.log2 n * 2) v 0 n ;;
    final_insertion_sort v' 0 n.

End WithComp.
End GnuSort.

(** ** [main]: the statistics (lines 361-383) *)

(** The three counters; the two [int] counters do not overflow on fewer
    than 2^31 records. *)
Record Stats : Type := mkStats {
  ratedMovies : Z;
  totalRating : double;
  rewatchCount : Z
}.

(** The body of the range-based [for] loop. *)
Definition stats_step (st : Stats) (movie : Movie) : Stats :=
  let st1 :=
    if negb (empty (rating movie)) then
      let r := safeStringToDouble (rating movie) in
      if gtb r zero then
        mkStats (ratedMovies st + 1) (add (totalRating st) r)
                (rewatchCount st)
      else st
    else st in
  if negb (empty (rewatch movie)) && negb (String.eqb (rewatch movie) "No")
  then mkStats (ratedMovies st1) (totalRating st1) (rewatchCount st1 + 1)
  else st1.

Definition statistics (movies : list Movie) : Stats :=
  fold_left stats_step movies (mkStats 0 zero 0).

(** [avgRating], computed only when [ratedMovies > 0]. *)
Definition avgRating (st : Stats) : option double :=
  if (0 <? ratedMovies st)%Z
  then Some (div (totalRating st) (of_Z (ratedMovies st)))
  else None.

(** The records the loop counts as rated, and those the specification
    describes: a non-empty rating that converts to a nonzero value. *)
Definition counted_as_rated (m : Movie) : bool :=
  negb (empty (rating m)) && gtb (rating_value m) zero.

Definition has_nonzero_rating (m : Movie) : bool :=
  negb (empty (rating m)) && negb (Double.eqb (rating_value m) zero).

(** ** Inputs used in the examples *)

(** The example line of the specification:
    [2024-01-01,"Movie, The",2023,,4.5,No,,"2024-01-01"]. *)
Definition example_line : string :=
  "2024-01-01," ++ dq ++ "Movie, The" ++ dq ++ ",2023,,4.5,No,,"
    ++ dq ++ "2024-01-01" ++ dq.

(** The rendering the specification gives for 4.5: four stars, a space,
    the half marker, then the fraction. *)
Definition spec_stars_4_5 : string := "**** " ++ half_marker ++ " (4.5/5)".

(** A record with the given rating and every other field empty. *)
Definition rated (r : string) : Movie := mkMovie "" "" "" "" r "" "" "".

(** The line feed as a string, for writing files. *)
Definition nl : string := str1 lf.

(** The record lines 135-143 build from a line. *)
Definition record_of_line (l : string) : Movie :=
  movie_of_fields (parseCSVLine l).

(** The records the reader admits from a readable file: one per data line
    with two fields at least, in the order of the lines. *)
Definition admitted (content : string) : list Movie :=
  map record_of_line
      (filter (fun l => negb (malformed l)) (data_lines content)).

Definition header_only : string :=
  "Date,Name,Year,Letterboxd URI,Rating,Rewatch,Tags,Watched Date" ++ nl.

(** Two files that differ by one line without a name. *)
Definition diary_one : string :=
  "Date,Name" ++ nl ++ "2024-01-01,Heat" ++ nl.

Definition diary_one_and_bad_line : string :=
  "Date,Name" ++ nl ++ "2024-01-01,Heat" ++ nl ++ "2024-01-02" ++ nl.

(** A data line with two fields, the second one empty. *)
Definition diary_empty_name : string :=
  "Date,Name" ++ nl ++ "2024-01-01," ++ nl ++ "2024-01-02,Heat" ++ nl.

(** ** Checking sorted permutations by computation *)

Definition Movie_eqb (a b : Movie) : bool :=
  String.eqb (date a) (date b) && String.eqb (name a) (name b)
  && String.eqb (year a) (year b)
  && String.eqb (letterboxdURI a) (letterboxdURI b)
  && String.eqb (rating a) (rating b) && String.eqb (rewatch a) (rewatch b)
  && String.eqb (tags a) (tags b)
  && String.eqb (watchedDate a) (watchedDate b).

(** [l] without the first record equal to [x], if there is one. *)
Fixpoint remove_first (x : Movie) (l : list Movie) : option (list Movie) :=
  match l with
  | [] => None
  | y :: t =>
      if Movie_eqb x y then Some t
      else option_map (cons y) (remove_first x t)
  end.

Fixpoint perm_check (l1 l2 : list Movie) : bool :=
  match l1 with
  | [] => match l2 with [] => true | _ => false end
  | x :: t =>
      match remove_first x l2 with
      | Some l2' => perm_check t l2'
      | None => false
      end
  end.

Fixpoint sorted_check (comp : Movie -> Movie -> bool) (l : list Movie)
    : bool :=
  match l with
  | [] => true
  | a :: t => forallb (fun b => negb (comp b a)) t && sorted_check comp t
  end.

(** ** A diary of seventeen entries *)

Definition entry (d n r : string) : Movie := mkMovie d n "" "" r "" "" "".

(** Most recent first, as the export has them; one title was watched
    twice. *)
Definition diary17 : list Movie :=
  [ entry "2024-03-17" "Zodiac" "4";
    entry "2024-03-16" "Whiplash" "5";
    entry "2024-03-15" "Memento" "4.5";
    entry "2024-03-14" "Heat" "4";
    entry "2024-03-13" "Jaws" "3.5";
    entry "2024-03-12" "Arrival" "4";
    entry "2024-03-11" "Fargo" "4.5";
    entry "2024-03-10" "Drive" "3";
    entry "2024-03-09" "Parasite" "4.5";
    entry "2024-03-08" "Casablanca" "5";
    entry "2024-03-07" "Inception" "4";
    entry "2024-03-06" "Whiplash" "4.5";
    entry "2024-03-05" "Gladiator" "3.5";
    entry "2024-03-04" "Seven" "4";
    entry "2024-03-03" "Rocky" "3";
    entry "2024-03-02" "Up" "4";
    entry "2024-03-01" "Alien" "4.5" ].

(** What the GNU [std::sort] leaves in the vector, by title. *)
Definition diary17_by_name : list Movie :=
  [ entry "2024-03-01" "Alien" "4.5";
    entry "2024-03-12" "Arrival" "4";
    entry "2024-03-08" "Casablanca" "5";
    entry "2024-03-10" "Drive" "3";
    entry "2024-03-11" "Fargo" "4.5";
    entry "2024-03-05" "Gladiator" "3.5";
    entry "2024-03-14" "Heat" "4";
    entry "2024-03-07" "Inception" "4";
    entry "2024-03-13" "Jaws" "3.5";
    entry "2024-03-15" "Memento" "4.5";
    entry "2024-03-09" "Parasite" "4.5";
    entry "2024-03-03" "Rocky" "3";
    entry "2024-03-04" "Seven" "4";
    entry "2024-03-02" "Up" "4";
    entry "2024-03-06" "Whiplash" "4.5";
    entry "2024-03-16" "Whiplash" "5";
    entry "2024-03-17" "Zodiac" "4" ].

(** And by rating, highest first. *)
Definition diary17_by_rating : list Movie :=
  [ entry "2024-03-16" "Whiplash" "5";
    entry "2024-03-08" "Casablanca" "5";
    entry "2024-03-01" "Alien" "4.5";
    entry "2024-03-06" "Whiplash" "4.5";
    entry "2024-03-09" "Parasite" "4.5";
    entry "2024-03-11" "Fargo" "4.5";
    entry "2024-03-15" "Memento" "4.5";
    entry "2024-03-12" "Arrival" "4";
    entry "2024-03-14" "Heat" "4";
    entry "2024-03-07" "Inception" "4";
    entry "2024-03-04" "Seven" "4";
    entry "2024-03-02" "Up" "4";
    entry "2024-03-17" "Zodiac" "4";
    entry "2024-03-13" "Jaws" "3.5";
    entry "2024-03-05" "Gladiator" "3.5";
    entry "2024-03-10" "Drive" "3";
    entry "2024-03-03" "Rocky" "3" ].

(** The file the diary is read from. *)
Definition diary17_csv : string :=
  "Date,Name,Year,Letterboxd URI,Rating" ++ nl
  ++ "2024-03-17,Zodiac,,,4" ++ nl
  ++ "2024-03-16,Whiplash,,,5" ++ nl
  ++ "2024-03-15,Memento,,,4.5" ++ nl
  ++ "2024-03-14,Heat,,,4" ++ nl
  ++ "2024-03-13,Jaws,,,3.5" ++ nl
  ++ "2024-03-12,Arrival,,,4" ++ nl
  ++ "2024-03-11,Fargo,,,4.5" ++ nl
  ++ "2024-03-10,Drive,,,3" ++ nl
  ++ "2024-03-09,Parasite,,,4.5" ++ nl
  ++ "2024-03-08,Casablanca,,,5" ++ nl
  ++ "2024-03-07,Inception,,,4" ++ nl
  ++ "2024-03-06,Whiplash,,,4.5" ++ nl
  ++ "2024-03-05,Gladiator,,,3.5" ++ nl
  ++ "2024-03-04,Seven,,,4" ++ nl
  ++ "2024-03-03,Rocky,,,3" ++ nl
  ++ "2024-03-02,Up,,,4" ++ nl
  ++ "2024-03-01,Alien,,,4.5" ++ nl.

(** The two most recent entries. *)
Definition diary2 : list Movie :=
  [ entry "2024-03-17" "Zodiac" "4"; entry "2024-03-16" "Whiplash" "5" ].

(** ** Further definitions: strings and CSV lines *)

(** Every character of [s] is in [set]. *)
Fixpoint all_in (set s : string) : bool :=
  match s with
  | EmptyString => true
  | String c r => mem c set && all_in set r
  end.

Definition first_char (s : string) : option ascii :=
  match s with
  | EmptyString => None
  | String c _ => Some c
  end.

(** [s] is empty, or neither its first nor its last character is one
    that [trim] removes. *)
Definition clean_ends (s : string) : bool :=
  match first_char s, last_char s with
  | Some a, Some b => negb (mem a trim_set) && negb (mem b trim_set)
  | _, _ => true
  end.

(** The number of occurrences of [c] in [s]. *)
Fixpoint count_char (c : ascii) (s : string) : nat :=
  match s with
  | EmptyString => 0
  | String d r => (if Ascii.eqb d c then 1 else 0) + count_char c r
  end.

(** A field between quotes, and fields joined by commas. *)
Definition quoted (f : string) : string := dq ++ f ++ dq.

Fixpoint csv_join (fields : list string) : string :=
  match fields with
  | [] => ""
  | [f] => f
  | f :: rest => f ++ str1 comma ++ csv_join rest
  end.

Definition csv_line (fields : list string) : string :=
  csv_join (map quoted fields).

(** ** Further definitions: diary files *)

(** The eight columns of a record, in the order of the file. *)
Definition fields_of_movie (m : Movie) : list string :=
  [date m; name m; year m; letterboxdURI m; rating m; rewatch m; tags m;
   watchedDate m].

Definition csv_of_movie (m : Movie) : string :=
  csv_line (fields_of_movie m).

(** Lines, each followed by a line feed. *)
Fixpoint unlines (lines : list string) : string :=
  match lines with
  | [] => ""
  | l :: rest => l ++ nl ++ unlines rest
  end.

(** A diary file: a header line, then one line per record with every
    column between quotes. *)
Definition write_diary (header : string) (movies : list Movie) : string :=
  unlines (header :: map csv_of_movie movies).

(** A column value that survives the file: no quote, no line feed, no
    white space at either end. *)
Definition plain_field (f : string) : Prop :=
  mem quote f = false /\ mem lf f = false /\ trim f = f.

Definition plain_movie (m : Movie) : Prop :=
  Forall plain_field (fields_of_movie m).

(** The same text with a carriage return before every line feed. *)
Fixpoint to_crlf (content : string) : string :=
  match content with
  | EmptyString => EmptyString
  | String c rest =>
      if Ascii.eqb c lf then String cr (String lf (to_crlf rest))
      else String c (to_crlf rest)
  end.

(** ** Further definitions: [main] *)

(** The records the loop of lines 365-376 counts as rewatches. *)
Definition counted_as_rewatch (m : Movie) : bool :=
  negb (empty (rewatch m)) && negb (String.eqb (rewatch m) "No").

(** Lines 255-258: the path typed in, without the quotes a drag and drop
    puts around it.  On a path that is a single quote the C++ count
    [filename.length() - 2] wraps around; [substr] clips it, and the
    result is the empty string, as here. *)
Definition unquote_path (filename : string) : string :=
  match filename with
  | String c _ =>
      if Ascii.eqb c quote
      then substr filename 1 (String.length filename - 2)
      else filename
  | EmptyString => filename
  end.

(** ** Further definitions: the text [stod] reads *)

Definition is_digit (c : ascii) : bool :=
  match dec_digit c with Some _ => true | None => false end.

(** Some character of the string is a decimal digit. *)
Fixpoint has_digit (s : string) : bool :=
  match s with
  | EmptyString => false
  | String c r => is_digit c || has_digit r
  end.

(** Every character of the string is a decimal digit. *)
Fixpoint all_digits (s : string) : bool :=
  match s with
  | EmptyString => true
  | String c r => is_digit c && all_digits r
  end.

(** The text [strtod] looks at for a number: what follows the leading
    white space and the optional sign. *)
Definition number_text (s : string) : string :=
  snd (take_sign (skip_space s)).

(** A character that cannot continue a decimal number: no digit, no
    point, and neither the exponent letter nor the [x] of the
    hexadecimal prefix, in either case. *)
Definition ends_decimal (c : ascii) : bool :=
  negb (is_digit c) && negb (Ascii.eqb c ".") &&
  negb (Ascii.eqb (tolower c) "e") && negb (Ascii.eqb (tolower c) "x").

(** ** Further definitions: the ordering step on every input *)

(** Whether [comp] is a strict weak ordering of the elements of [l],
    found by trying them all. *)
Definition strict_weak_check {A : Type} (comp : A -> A -> bool)
    (l : list A) : bool :=
  forallb (fun a => negb (comp a a)) l &&
  forallb (fun a => forallb (fun b => forallb (fun c =>
    implb (comp a b && comp b c) (comp a c) &&
    implb (equiv comp a b && equiv comp b c) (equiv comp a c)) l) l) l.

(** What the [if] chain of lines 302-317 leaves in the variable [movies]:
    the collection in its new order, or, when [sort] is called with a
    comparison that is not a strict weak ordering of the records, the
    undefined behaviour of the C++ standard, about which it says
    nothing. *)
Inductive ordering : Type :=
| Ordered (after : list Movie)
| Undefined.

(** The ordering step on every input.  [by_name] is a strict weak
    ordering of any records, so only the sort by rating can be
    undefined. *)
Inductive ordering_step (sortChoice : string) (movies : list Movie)
    : ordering -> Prop :=
| ordering_defined (after : list Movie) :
    sort_step sortChoice movies after ->
    ordering_step sortChoice movies (Ordered after)
| ordering_undefined :
    sortChoice = "4" ->
    ~ strict_weak_on by_rating movies ->
    ordering_step sortChoice movies Undefined.

(** The same [if] chain with the [std::sort] of the GNU library, which
    can be run on any records; [None] when the model of that [sort]
    gives up (the heap sort it falls back on is not modelled) or reads
    outside the vector. *)
Definition gnu_ordering_step (sortChoice : string) (movies : list Movie)
    : option (list Movie) :=
  if String.eqb sortChoice "2" then Some (rev movies)
  else if String.eqb sortChoice "3" then GnuSort.sort by_name movies
  else if String.eqb sortChoice "4" then GnuSort.sort by_rating movies
  else Some movies.

Definition has_nan_rating (m : Movie) : bool := is_nan (rating_value m).

(** Three records, the first with a rating that reads as a NaN. *)
Definition diary_nan : list Movie :=
  [ entry "2024-03-17" "Zodiac" "nan"; entry "2024-03-16" "Whiplash" "4";
    entry "2024-03-15" "Memento" "5" ].

(** The three counts of the statistics block: the size of the vector
    (line 357), [ratedMovies] and [rewatchCount]. *)
Definition report_counts (movies : list Movie) : nat * Z * Z :=
  (List.length movies, ratedMovies (statistics movies),
   rewatchCount (statistics movies)).
(* ================================================================== *)
(** * Part II. Properties                                               *)
(* ================================================================== *)

(** ** Strings *)

Lemma mem_substring (c : ascii) (s : string) :
  forall n m, mem c (String.substring n m s) = true -> mem c s = true.
Proof.
  induction s as [|d s IH]; intros n m H.
  - destruct n, m; simpl in H; discriminate.
  - destruct n as [|n].
    + destruct m as [|m]; simpl in H; [discriminate|].
      simpl. apply orb_true_iff in H. destruct H as [H|H].
      * now rewrite H.
      * rewrite (IH 0 m H). apply orb_true_r.
    + simpl in H. simpl. rewrite (IH n m H). apply orb_true_r.
Qed.

Lemma mem_append (c : ascii) (s t : string) :
  mem c (s ++ t) = mem c s || mem c t.
Proof.
  induction s as [|d s IH]; simpl; [reflexivity|].
  now rewrite IH, orb_assoc.
Qed.

Lemma mem_trim (c : ascii) (s : string) :
  mem c (trim s) = true -> mem c s = true.
Proof.
  unfold trim, substr.
  destruct (find_first_not_of s trim_set) as [first|]; [|discriminate].
  destruct (find_last_not_of s trim_set) as [last|]; apply mem_substring.
Qed.

(** [find_last_not_of] finds something as soon as [find_first_not_of]
    does, and not before it: the [None] branch of [trim] is dead. *)
Lemma trim_last_found (s : string) (first : nat) :
  find_first_not_of s trim_set = Some first ->
  exists last, find_last_not_of s trim_set = Some last /\ first <= last.
Proof.
  revert first.
  induction s as [|c s IH]; intros first H;
    cbn [find_first_not_of find_last_not_of] in *.
  - discriminate.
  - destruct (mem c trim_set) eqn:Hc.
    + destruct (find_first_not_of s trim_set) as [f|]; [|discriminate].
      simpl in H. injection H as <-. destruct (IH f eq_refl) as (l & -> & Hl).
      exists (S l). split; [reflexivity|lia].
    + injection H as <-.
      destruct (find_last_not_of s trim_set) as [l|].
      * exists (S l). split; [reflexivity|lia].
      * exists 0. split; [reflexivity|lia].
Qed.

(** The example of the specification: white space and quotes go from both
    ends, and only from the ends. *)
Example trim_example :
  trim (" " ++ dq ++ "No" ++ dq ++ "  ") = "No" /\
  trim ("a " ++ dq ++ " b") = "a " ++ dq ++ " b" /\
  trim (" " ++ dq ++ " ") = "".
Proof. split; [reflexivity|]. split; reflexivity. Qed.

(** ** The CSV line parser *)

Section ParserInvariant.

Lemma trim_quote_free (s : string) :
  mem quote s = false -> mem quote (trim s) = false.
Proof.
  intros H. destruct (mem quote (trim s)) eqn:E; [|reflexivity].
  apply mem_trim in E. congruence.
Qed.

Lemma parse_step_quote_free (st : ParseState) (c : ascii) :
  quote_free st -> quote_free (parse_step st c).
Proof.
  intros [Hf Hfs]. unfold parse_step.
  destruct (Ascii.eqb c quote) eqn:Hq; [split; assumption|].
  destruct (Ascii.eqb c comma && negb (ps_inQuotes st)); split; simpl.
  - reflexivity.
  - apply Forall_app. split; [assumption|].
    constructor; [|constructor]. now apply trim_quote_free.
  - unfold push_char, str1. rewrite mem_append, Hf.
    cbn [mem orb]. rewrite (Ascii.eqb_sym quote c), Hq. reflexivity.
  - assumption.
Qed.

Lemma parse_loop_quote_free (line : string) :
  forall st, quote_free st -> quote_free (parse_loop line st).
Proof.
  induction line as [|c rest IH]; intros st H; simpl; [assumption|].
  apply IH, parse_step_quote_free, H.
Qed.

End ParserInvariant.

(** C10.  Whatever the line, no field returned by [parseCSVLine] contains
    a quote character: the scanner consumes every quote by toggling
    [inQuotes] and never appends it to the field text, also when the
    quote is in the middle of an unquoted field. *)
Theorem parseCSVLine_no_quote (line f : string) :
  In f (parseCSVLine line) -> mem quote f = false.
Proof.
  intros Hin. unfold parseCSVLine in Hin.
  destruct (parse_loop_quote_free line parse_init) as [Hf Hfs].
  { split; [reflexivity|constructor]. }
  apply in_app_or in Hin. destruct Hin as [Hin|[<-|[]]].
  - rewrite Forall_forall in Hfs. now apply Hfs.
  - now apply trim_quote_free.
Qed.

Lemma parseCSVLine_no_quote_witness :
  In "abcd" (parseCSVLine ("ab" ++ dq ++ "cd")) /\
  mem quote "abcd" = false.
Proof.
  assert (H : In "abcd" (parseCSVLine ("ab" ++ dq ++ "cd"))).
  { simpl. left. reflexivity. }
  split; [exact H|].
  exact (parseCSVLine_no_quote ("ab" ++ dq ++ "cd") "abcd" H).
Defined.

(** C8.  On the example line the parser returns exactly the eight fields
    of the specification: the comma inside the quoted title is ordinary
    text, the quotes are gone and every field is trimmed. *)
Theorem parseCSVLine_example :
  parseCSVLine example_line =
  ["2024-01-01"; "Movie, The"; "2023"; ""; "4.5"; "No"; ""; "2024-01-01"].
Proof. reflexivity. Qed.




(** ** The numeric conversion *)

(** [stod] never reports more characters than the string has. *)
Lemma strtod_end_le (s : string) (r : strtod_result) :
  strtod s = Some r -> sr_end r <= String.length s.
Proof.
  unfold strtod. destruct (take_sign (skip_space s)) as [neg rest].
  destruct (scan_number rest) as [[x rest']|]; [|discriminate].
  intros [= <-]. simpl. lia.
Qed.

(** [safeStringToDouble] by the outcome of [stod]: every way [stod] can
    fail ends in [0.0], and whenever [stod] stops before the end of the
    string the result is [0.0], whatever the prefix it read was worth. *)
Lemma safeStringToDouble_policy :
  safeStringToDouble "" = zero /\
  safeStringToDouble "4.5" = S754_finite false 5066549580791808 (-50) /\
  safeStringToDouble "4.5" = div (of_Z 9) (of_Z 2) /\
  safeStringToDouble "4.5abc" = zero /\
  safeStringToDouble "abc" = zero /\
  (forall str value idx,
      stod str = stod_ok value idx -> idx <> String.length str ->
      safeStringToDouble str = zero) /\
  (forall str,
      stod str = stod_invalid_argument \/ stod str = stod_out_of_range ->
      safeStringToDouble str = zero) /\
  (forall str value,
      str <> "" -> stod str = stod_ok value (String.length str) ->
      safeStringToDouble str = value).
Proof.
  split; [reflexivity|].
  split; [vm_compute; reflexivity|].
  split; [vm_compute; reflexivity|].
  split; [vm_compute; reflexivity|].
  split; [vm_compute; reflexivity|].
  split; [|split].
  - intros str value idx Hs Hidx. unfold safeStringToDouble.
    destruct (empty str); [reflexivity|]. rewrite Hs.
    apply Nat.eqb_neq in Hidx. now rewrite Hidx.
  - intros str [Hs|Hs]; unfold safeStringToDouble;
      destruct (empty str); try reflexivity; now rewrite Hs.
  - intros str value Hne Hs. unfold safeStringToDouble.
    destruct str as [|c str]; [congruence|]. cbn [empty].
    rewrite Hs, Nat.eqb_refl. reflexivity.
Qed.

Lemma safeStringToDouble_policy_witness :
  stod "4.5abc" = stod_ok (S754_finite false 5066549580791808 (-50)) 3 /\
  3 <> String.length "4.5abc" /\
  safeStringToDouble "4.5abc" = zero.
Proof.
  assert (Hs : stod "4.5abc"
               = stod_ok (S754_finite false 5066549580791808 (-50)) 3)
    by (vm_compute; reflexivity).
  assert (Hn : 3 <> String.length "4.5abc") by (simpl; lia).
  split; [exact Hs|]. split; [exact Hn|].
  exact (proj1 (proj2 (proj2 (proj2 (proj2 (proj2
           safeStringToDouble_policy)))))
         "4.5abc" _ 3 Hs Hn).
Defined.

(** Where the boundary of what [stod] reads as a number lies: white
    space before the number, an exponent, the hexadecimal notation and
    the words for infinity are read; anything left after the number,
    white space included, makes the result [0.0]. *)
Example safeStringToDouble_boundary :
  safeStringToDouble " 4.5" = S754_finite false 5066549580791808 (-50) /\
  safeStringToDouble "4.5 " = zero /\
  safeStringToDouble "45e-1" = S754_finite false 5066549580791808 (-50) /\
  safeStringToDouble "4.5e" = zero /\
  safeStringToDouble "0x1.2p2" = S754_finite false 5066549580791808 (-50) /\
  safeStringToDouble "inf" = S754_infinity false /\
  safeStringToDouble "1e999" = zero /\
  safeStringToDouble "-1" = SFopp (of_Z 1).
Proof.
  split; [vm_compute; reflexivity|]. split; [vm_compute; reflexivity|].
  split; [vm_compute; reflexivity|]. split; [vm_compute; reflexivity|].
  split; [vm_compute; reflexivity|]. split; [vm_compute; reflexivity|].
  split; vm_compute; reflexivity.
Qed.

Lemma strip_infinity_inf (s r : string) :
  strip_prefix_ci "infinity" s = Some r -> strip_prefix_ci "inf" s <> None.
Proof.
  destruct s as [|a s]; [discriminate|]. cbn [strip_prefix_ci].
  destruct (Ascii.eqb "i" (tolower a)); [|discriminate].
  destruct s as [|b s]; [discriminate|]. cbn [strip_prefix_ci].
  destruct (Ascii.eqb "n" (tolower b)); [|discriminate].
  destruct s as [|c s]; [discriminate|]. cbn [strip_prefix_ci].
  destruct (Ascii.eqb "f" (tolower c)); discriminate.
Qed.

(** *** What [stod] makes of text without digits and of text after a number *)

Lemma is_digit_not_space (c : ascii) : is_digit c = true -> isspace c = false.
Proof.
  destruct c as [[] [] [] [] [] [] [] []]; intros H; vm_compute in *;
    congruence.
Qed.

Lemma is_digit_not_sign (c : ascii) :
  is_digit c = true -> Ascii.eqb c "-" = false /\ Ascii.eqb c "+" = false.
Proof.
  destruct c as [[] [] [] [] [] [] [] []]; intros H; vm_compute in *;
    split; congruence.
Qed.

Lemma is_digit_not_letter (c : ascii) :
  is_digit c = true ->
  Ascii.eqb "i" (tolower c) = false /\ Ascii.eqb "n" (tolower c) = false /\
  Ascii.eqb "x" (tolower c) = false /\ Ascii.eqb (tolower c) "x" = false.
Proof.
  destruct c as [[] [] [] [] [] [] [] []]; intros H; vm_compute in *;
    repeat split; congruence.
Qed.

Lemma tolower_zero_digit (c : ascii) :
  Ascii.eqb "0" (tolower c) = true -> is_digit c = true.
Proof.
  destruct c as [[] [] [] [] [] [] [] []]; intros H; vm_compute in *;
    congruence.
Qed.

Lemma ends_decimal_spec (c : ascii) :
  ends_decimal c = true ->
  is_digit c = false /\ Ascii.eqb c "." = false /\
  Ascii.eqb (tolower c) "e" = false /\ Ascii.eqb "x" (tolower c) = false.
Proof.
  destruct c as [[] [] [] [] [] [] [] []]; intros H; vm_compute in *;
    repeat split; congruence.
Qed.

Lemma is_digit_dec_digit (c : ascii) :
  is_digit c = false -> dec_digit c = None.
Proof. unfold is_digit. now destruct (dec_digit c). Qed.

(** A digit is neither white space nor a sign: the number starts at once. *)
Lemma number_text_digit (a : ascii) (r : string) :
  is_digit a = true -> number_text (String a r) = String a r.
Proof.
  intros H. unfold number_text. cbn [skip_space].
  rewrite (is_digit_not_space a H). cbn [take_sign].
  destruct (is_digit_not_sign a H) as [-> ->]. reflexivity.
Qed.

Lemma number_text_digits (d r : string) :
  all_digits d = true -> d <> "" -> number_text (d ++ r) = d ++ r.
Proof.
  destruct d as [|a d]; [congruence|]. cbn [all_digits append].
  intros H _. apply andb_true_iff in H. now apply number_text_digit.
Qed.

Lemma has_digit_skip_space (s : string) :
  has_digit s = false -> has_digit (skip_space s) = false.
Proof.
  induction s as [|c s IH]; intros H; [exact H|]. cbn [skip_space].
  destruct (isspace c); [|exact H].
  cbn [has_digit] in H. apply orb_false_iff in H. now apply IH.
Qed.

Lemma has_digit_number_text (s : string) :
  has_digit s = false -> has_digit (number_text s) = false.
Proof.
  intros H. apply has_digit_skip_space in H. unfold number_text.
  destruct (skip_space s) as [|c r]; [exact H|]. cbn [take_sign].
  pose proof H as H'. cbn [has_digit] in H'. apply orb_false_iff in H'.
  destruct (Ascii.eqb c "-"); [exact (proj2 H')|].
  destruct (Ascii.eqb c "+"); [exact (proj2 H')|]. exact H.
Qed.

Lemma scan_digits_no_digit (s : string) (acc n : Z) :
  has_digit s = false -> scan_digits 10 dec_digit s acc n = (acc, n, s).
Proof.
  destruct s as [|c s]; [reflexivity|]. cbn [has_digit scan_digits].
  intros H. apply orb_false_iff in H.
  now rewrite (is_digit_dec_digit c (proj1 H)).
Qed.

Lemma scan_digits_all (d : string) (c : ascii) (t : string) :
  all_digits d = true -> is_digit c = false ->
  forall acc n, exists m,
    scan_digits 10 dec_digit (d ++ String c t) acc n
    = (m, (n + Z.of_nat (String.length d))%Z, String c t).
Proof.
  intros Hd Hc. induction d as [|a d IH]; intros acc n.
  - exists acc. cbn [append scan_digits String.length].
    rewrite (is_digit_dec_digit c Hc). f_equal. f_equal. cbn. lia.
  - cbn [all_digits] in Hd. apply andb_true_iff in Hd. destruct Hd as [Ha Hd].
    cbn [append scan_digits]. unfold is_digit in Ha.
    destruct (dec_digit a) as [x|]; [|discriminate].
    destruct (IH Hd (acc * 10 + x)%Z (n + 1)%Z) as [m Hm]. exists m.
    rewrite Hm. f_equal. f_equal. cbn [String.length]. lia.
Qed.

Lemma scan_mantissa_no_point (base : Z) (digit : ascii -> option Z)
    (s : string) (m1 n1 : Z) (r1 : string) :
  scan_digits base digit s 0 0 = (m1, n1, r1) ->
  match r1 with String c _ => Ascii.eqb c "." = false | EmptyString => True end ->
  scan_mantissa base digit s
  = if (n1 =? 0)%Z then None else Some (m1, 0%Z, r1).
Proof.
  intros E H. unfold scan_mantissa. rewrite E.
  destruct r1 as [|c r2]; [reflexivity|].
  destruct c as [[] [] [] [] [] [] [] []]; try reflexivity. discriminate H.
Qed.

Lemma scan_mantissa_point (base : Z) (digit : ascii -> option Z)
    (s : string) (m1 n1 : Z) (r2 : string) :
  scan_digits base digit s 0 0 = (m1, n1, String "." r2) ->
  scan_mantissa base digit s
  = let '(m2, n2, r3) := scan_digits base digit r2 m1 0 in
    if (n1 + n2 =? 0)%Z then None else Some (m2, n2, r3).
Proof. intros E. unfold scan_mantissa. now rewrite E. Qed.

(** Text without a digit holds no number, unless it spells [inf] or
    [nan]. *)
Lemma scan_number_no_digit (r : string) :
  has_digit r = false ->
  strip_prefix_ci "inf" r = None -> strip_prefix_ci "nan" r = None ->
  scan_number r = None.
Proof.
  intros Hd Hinf Hnan. unfold scan_number.
  destruct (strip_prefix_ci "infinity" r) as [r'|] eqn:E.
  { now destruct (strip_infinity_inf r r' E). }
  rewrite Hinf, Hnan.
  assert (Hx : strip_prefix_ci "0x" r = None).
  { destruct r as [|a r]; [reflexivity|]. cbn [strip_prefix_ci].
    destruct (Ascii.eqb "0" (tolower a)) eqn:E0; [|reflexivity].
    apply tolower_zero_digit in E0. cbn [has_digit] in Hd.
    rewrite E0 in Hd. discriminate Hd. }
  rewrite Hx.
  assert (Hm : scan_mantissa 10 dec_digit r = None).
  { pose proof (scan_digits_no_digit r 0 0 Hd) as E1.
    destruct r as [|c r2].
    - now rewrite (scan_mantissa_no_point _ _ _ _ _ _ E1 I).
    - destruct (Ascii.eqb_spec c ".") as [->|Hne].
      + rewrite (scan_mantissa_point _ _ _ _ _ _ E1).
        cbn [has_digit] in Hd. apply orb_false_iff in Hd.
        now rewrite (scan_digits_no_digit r2 0 0 (proj2 Hd)).
      + apply Ascii.eqb_neq in Hne.
        now rewrite (scan_mantissa_no_point _ _ _ _ _ _ E1 Hne). }
  now rewrite Hm.
Qed.

(** Text that begins with a digit and not with [0x] is read as a decimal
    number. *)
Lemma scan_number_decimal_path (a : ascii) (r : string) :
  is_digit a = true -> strip_prefix_ci "0x" (String a r) = None ->
  scan_number (String a r)
  = match scan_mantissa 10 dec_digit (String a r) with
    | Some (m, nf, r1) =>
        let '(e, r2) := scan_exponent "e" r1 in Some (NDec m (e - nf), r2)
    | None => None
    end.
Proof.
  intros Ha Hx. destruct (is_digit_not_letter a Ha) as (Hi & Hn & _ & _).
  unfold scan_number. rewrite Hx. cbn [strip_prefix_ci]. rewrite Hi, Hn.
  reflexivity.
Qed.

Lemma strip_0x_digits (a : ascii) (d1 : string) (c : ascii) (t : string) :
  all_digits d1 = true -> Ascii.eqb "x" (tolower c) = false ->
  strip_prefix_ci "0x" (String a (d1 ++ String c t)) = None.
Proof.
  intros Hd1 Hc. cbn [strip_prefix_ci].
  destruct (Ascii.eqb "0" (tolower a)); [|reflexivity].
  destruct d1 as [|b d1]; cbn [append].
  - now rewrite Hc.
  - cbn [all_digits] in Hd1. apply andb_true_iff in Hd1.
    destruct (is_digit_not_letter b (proj1 Hd1)) as (_ & _ & -> & _).
    reflexivity.
Qed.

(** After a run of digits, a character that cannot continue a decimal
    number is where the number ends. *)
Lemma scan_number_integer (d1 : string) (c : ascii) (t : string) :
  all_digits d1 = true -> d1 <> "" -> ends_decimal c = true ->
  exists x, scan_number (d1 ++ String c t) = Some (x, String c t).
Proof.
  intros Hd Hne Hc.
  destruct (ends_decimal_spec c Hc) as (Hc1 & Hc2 & Hc3 & Hc4).
  destruct d1 as [|a d1]; [congruence|]. clear Hne.
  pose proof Hd as Hd'. cbn [all_digits] in Hd'.
  apply andb_true_iff in Hd'. destruct Hd' as [Ha Hd1].
  destruct (is_digit_not_letter a Ha) as (Hi & Hn & _ & _).
  destruct (scan_digits_all (String a d1) c t Hd Hc1 0%Z 0%Z) as [m1 E1].
  cbn [append] in *.
  rewrite (scan_number_decimal_path a _ Ha (strip_0x_digits a d1 c t Hd1 Hc4)).
  rewrite (scan_mantissa_no_point _ _ _ _ _ _ E1 Hc2).
  replace (0 + Z.of_nat (String.length (String a d1)) =? 0)%Z with false
    by (symmetry; apply Z.eqb_neq; cbn [String.length]; lia).
  cbn [scan_exponent]. rewrite Hc3. eexists. reflexivity.
Qed.

(** The same after digits, a point and further digits. *)
Lemma scan_number_fraction (d1 d2 : string) (c : ascii) (t : string) :
  all_digits d1 = true -> d1 <> "" -> all_digits d2 = true ->
  ends_decimal c = true ->
  exists x,
    scan_number (d1 ++ String "." (d2 ++ String c t)) = Some (x, String c t).
Proof.
  intros Hd Hne Hd2 Hc.
  destruct (ends_decimal_spec c Hc) as (Hc1 & Hc2 & Hc3 & Hc4).
  destruct d1 as [|a d1]; [congruence|]. clear Hne.
  pose proof Hd as Hd'. cbn [all_digits] in Hd'.
  apply andb_true_iff in Hd'. destruct Hd' as [Ha Hd1].
  destruct (is_digit_not_letter a Ha) as (Hi & Hn & _ & _).
  destruct (scan_digits_all (String a d1) "." (d2 ++ String c t) Hd
              eq_refl 0%Z 0%Z) as [m1 E1].
  destruct (scan_digits_all d2 c t Hd2 Hc1 m1 0%Z) as [m2 E2].
  cbn [append] in *.
  rewrite (scan_number_decimal_path a _ Ha
             (strip_0x_digits a d1 "." (d2 ++ String c t) Hd1 eq_refl)).
  rewrite (scan_mantissa_point _ _ _ _ _ _ E1), E2.
  replace (0 + Z.of_nat (String.length (String a d1))
           + (0 + Z.of_nat (String.length d2)) =? 0)%Z with false
    by (symmetry; apply Z.eqb_neq; cbn [String.length]; lia).
  cbn [scan_exponent]. rewrite Hc3. eexists. reflexivity.
Qed.

(** No number in the text: [stod] throws, the result is [0.0]. *)
Lemma safeStringToDouble_no_number (s : string) :
  scan_number (number_text s) = None -> safeStringToDouble s = zero.
Proof.
  intros H. unfold safeStringToDouble, stod, strtod.
  destruct (empty s); [reflexivity|]. unfold number_text in H.
  destruct (take_sign (skip_space s)) as [neg r]. cbn [snd] in H.
  now rewrite H.
Qed.

(** Text left after the number: the result is [0.0]. *)
Lemma safeStringToDouble_rest (s : string) (x : number) (rest : string) :
  scan_number (number_text s) = Some (x, rest) -> rest <> "" ->
  safeStringToDouble s = zero.
Proof.
  intros H Hrest. unfold safeStringToDouble, stod, strtod.
  destruct s as [|a s]; [reflexivity|]. cbn [empty].
  unfold number_text in H.
  destruct (take_sign (skip_space (String a s))) as [neg r]. cbn [snd] in H.
  rewrite H. cbn [sr_erange sr_value sr_end].
  destruct (range_error x (magnitude x)); [reflexivity|].
  destruct rest as [|b rest]; [congruence|].
  replace (Nat.eqb (String.length (String a s) - String.length (String b rest))
             (String.length (String a s))) with false
    by (symmetry; apply Nat.eqb_neq; cbn [String.length]; lia).
  reflexivity.
Qed.





(** ** Star rendering *)

(** C6, as stated, fails: the program puts no space between the last star
    and the half marker. *)
Lemma ratingToStars_4_5_not_spec :
  ratingToStars "4.5" <> Some spec_stars_4_5.
Proof. vm_compute. discriminate. Qed.

(** C6, amended.  The rating 4.5 is rendered as four stars directly
    followed by the half marker and the fraction; the ratings 0 and the
    empty string as the empty string; the rating 5 as five stars, no half
    marker, and the fraction. *)
Theorem ratingToStars_examples :
  ratingToStars "4.5" = Some ("****" ++ half_marker ++ " (4.5/5)") /\
  ratingToStars "0" = Some "" /\
  ratingToStars "" = Some "" /\
  ratingToStars "5" = Some "***** (5/5)".
Proof.
  split; [vm_compute; reflexivity|].
  split; [vm_compute; reflexivity|].
  split; vm_compute; reflexivity.
Qed.

(** ** Statistics *)

Lemma stats_step_rated (st : Stats) (m : Movie) :
  ratedMovies (stats_step st m)
  = (ratedMovies st + if counted_as_rated m then 1 else 0)%Z.
Proof.
  unfold stats_step, counted_as_rated, rating_value.
  destruct (empty (rating m)); cbn [negb andb];
    [|destruct (gtb (safeStringToDouble (rating m)) zero)];
    destruct (negb (empty (rewatch m)) && negb (String.eqb (rewatch m) "No"));
    cbn [ratedMovies]; lia.
Qed.

Lemma stats_step_total (st : Stats) (m : Movie) :
  totalRating (stats_step st m)
  = if counted_as_rated m then add (totalRating st) (rating_value m)
    else totalRating st.
Proof.
  unfold stats_step, counted_as_rated, rating_value.
  destruct (empty (rating m)); cbn [negb andb];
    [|destruct (gtb (safeStringToDouble (rating m)) zero)];
    destruct (negb (empty (rewatch m)) && negb (String.eqb (rewatch m) "No"));
    reflexivity.
Qed.

Lemma statistics_from (movies : list Movie) :
  forall st,
    ratedMovies (fold_left stats_step movies st)
    = (ratedMovies st
       + Z.of_nat (List.length (filter counted_as_rated movies)))%Z /\
    totalRating (fold_left stats_step movies st)
    = fold_left add (map rating_value (filter counted_as_rated movies))
        (totalRating st).
Proof.
  induction movies as [|m movies IH]; intros st; cbn [fold_left filter].
  - cbn. split; [lia|reflexivity].
  - destruct (IH (stats_step st m)) as [Hc Ht].
    rewrite Hc, Ht, stats_step_rated, stats_step_total.
    destruct (counted_as_rated m); cbn [List.length map fold_left];
      split; try reflexivity; lia.
Qed.

(** C9, as stated, fails: a rating of -1 is not empty and converts to a
    nonzero value, yet the loop does not count it. *)
Lemma rated_count_not_nonzero :
  has_nonzero_rating (rated "-1") = true /\
  ratedMovies (statistics [rated "-1"])
  <> Z.of_nat (List.length (filter has_nonzero_rating [rated "-1"])).
Proof. split; [vm_compute; reflexivity|]. vm_compute. discriminate. Qed.

(** C9, amended.  The statistics count as rated exactly the records whose
    rating is not empty and converts to a value greater than zero; the
    total is the sum of those converted ratings in the order of the
    collection, and the average is that total divided by the count, when
    the count is positive.  With the ratings 4, 0 and the empty string the
    count is 1 and the average is 4.0. *)
Theorem statistics_rated (movies : list Movie) :
  let st := statistics movies in
  let ratings := map rating_value (filter counted_as_rated movies) in
  ratedMovies st = Z.of_nat (List.length ratings) /\
  totalRating st = fold_left add ratings zero /\
  avgRating st
  = (if (0 <? Z.of_nat (List.length ratings))%Z
     then Some (div (fold_left add ratings zero)
                    (of_Z (Z.of_nat (List.length ratings))))
     else None) /\
  ratedMovies (statistics [rated "4"; rated "0"; rated ""]) = 1%Z /\
  avgRating (statistics [rated "4"; rated "0"; rated ""])
  = Some (of_Z 4).
Proof.
  cbv zeta. destruct (statistics_from movies (mkStats 0 zero 0)) as [Hc Ht].
  fold (statistics movies) in Hc, Ht. cbn [ratedMovies totalRating] in Hc, Ht.
  rewrite length_map. unfold avgRating. rewrite Hc, Ht.
  split; [reflexivity|]. split; [reflexivity|]. split; [reflexivity|].
  split; vm_compute; reflexivity.
Qed.

(** ** The diary reader *)

Lemma reader_step_data (st : ReaderState) (line : string) :
  rs_isFirstLine st = false ->
  rs_isFirstLine (reader_step st line) = false /\
  rs_movies (reader_step st line)
  = (rs_movies st
     ++ map record_of_line
          (filter (fun l => negb (malformed l))
             (filter (fun l => negb (empty l)) [strip_cr line])))%list.
Proof.
  intros Hfirst. unfold reader_step. rewrite Hfirst.
  unfold malformed, record_of_line. cbn [filter].
  destruct (empty (strip_cr line));
    cbn [negb rs_isFirstLine rs_movies filter map].
  - split; [reflexivity|]. now rewrite app_nil_r.
  - remember (List.length (parseCSVLine (strip_cr line))) as n eqn:Hn.
    destruct n as [|[|n]]; cbn; (split; [reflexivity|]);
      try reflexivity; now rewrite app_nil_r.
Qed.

Lemma reader_loop_data (lines : list string) :
  forall st,
    rs_isFirstLine st = false ->
    rs_movies (reader_loop lines st)
    = (rs_movies st
       ++ map record_of_line
            (filter (fun l => negb (malformed l))
               (filter (fun l => negb (empty l)) (map strip_cr lines))))%list.
Proof.
  induction lines as [|line lines IH]; intros st Hfirst.
  - cbn. now rewrite app_nil_r.
  - cbn [reader_loop fold_left].
    destruct (reader_step_data st line Hfirst) as [Hf Hm].
    fold (reader_loop lines (reader_step st line)).
    rewrite (IH _ Hf), Hm, <- app_assoc, <- map_app, <- !filter_app.
    reflexivity.
Qed.

Lemma reader_loop_movies (lines : list string) :
  rs_movies (reader_loop lines reader_init)
  = map record_of_line
      (filter (fun l => negb (malformed l))
         (filter (fun l => negb (empty l)) (map strip_cr (tl lines)))).
Proof.
  destruct lines as [|header lines]; [reflexivity|].
  cbn [reader_loop fold_left tl].
  fold (reader_loop lines (reader_step reader_init header)).
  rewrite reader_loop_data; reflexivity.
Qed.

(** C4, as stated, fails: a data line whose second field is empty is
    admitted, with an empty name. *)
Lemma admitted_with_empty_name :
  rr_movies (readLetterboxdCSV (one_file "diary.csv" diary_empty_name)
               "diary.csv")
  = [mkMovie "2024-01-01" "" "" "" "" "" "" "";
     mkMovie "2024-01-02" "Heat" "" "" "" "" "" ""] /\
  name (mkMovie "2024-01-01" "" "" "" "" "" "" "") = "".
Proof. split; vm_compute; reflexivity. Qed.

(** C4, amended.  The records the reader returns for a readable file are
    exactly those of the data lines whose field sequence has two fields
    at least, one record per such line in the order of the lines, the
    name being the second field (which may be empty).  A line with fewer
    than two fields yields no record, and the lines after it are still
    read. *)
Theorem reader_admits_two_fields (fs : FileSystem) (filename content : string) :
  fs filename = Some content ->
  rr_movies (readLetterboxdCSV fs filename) = admitted content /\
  (forall m, In m (rr_movies (readLetterboxdCSV fs filename)) ->
     exists l, In l (data_lines content) /\
               2 <= List.length (parseCSVLine l) /\
               m = movie_of_fields (parseCSVLine l) /\
               name m = nth 1 (parseCSVLine l) "") /\
  (forall before l after,
     data_lines content = (before ++ l :: after)%list ->
     List.length (parseCSVLine l) < 2 ->
     rr_movies (readLetterboxdCSV fs filename)
     = (map record_of_line (filter (fun l => negb (malformed l)) before)
        ++ map record_of_line (filter (fun l => negb (malformed l)) after))
       %list).
Proof.
  intros Hfs.
  assert (Hm : rr_movies (readLetterboxdCSV fs filename) = admitted content).
  { unfold readLetterboxdCSV. rewrite Hfs. cbn [rr_movies].
    apply reader_loop_movies. }
  split; [exact Hm|]. rewrite Hm. unfold admitted. split.
  - intros m Hin. apply in_map_iff in Hin. destruct Hin as (l & <- & Hl).
    apply filter_In in Hl. destruct Hl as [Hl Hok].
    exists l. split; [exact Hl|].
    unfold malformed in Hok. apply negb_true_iff, Nat.ltb_ge in Hok.
    split; [exact Hok|]. split; reflexivity.
  - intros before l after Hd Hl. rewrite Hd, filter_app, map_app.
    cbn [filter]. unfold malformed at 2.
    apply Nat.ltb_lt in Hl. now rewrite Hl.
Qed.

Lemma reader_admits_two_fields_witness :
  one_file "diary.csv" diary_one_and_bad_line "diary.csv"
  = Some diary_one_and_bad_line /\
  rr_movies (readLetterboxdCSV (one_file "diary.csv" diary_one_and_bad_line)
               "diary.csv")
  = admitted diary_one_and_bad_line.
Proof.
  assert (H : one_file "diary.csv" diary_one_and_bad_line "diary.csv"
              = Some diary_one_and_bad_line) by reflexivity.
  split; [exact H|].
  exact (proj1 (reader_admits_two_fields _ _ _ H)).
Defined.

(** The reader writes to [cerr] only when the file cannot be opened. *)
Lemma reader_step_cerr (st : ReaderState) (line : string) :
  cerr (rs_console (reader_step st line)) = cerr (rs_console st).
Proof.
  unfold reader_step.
  destruct (rs_isFirstLine st); [reflexivity|].
  destruct (empty (strip_cr line)); [reflexivity|].
  destruct (Nat.eqb (S (rs_lineNumber st)) 2);
    destruct (Nat.leb 2 (List.length (parseCSVLine (strip_cr line))));
    reflexivity.
Qed.

Lemma reader_loop_cerr (lines : list string) :
  forall st, cerr (rs_console (reader_loop lines st)) = cerr (rs_console st).
Proof.
  induction lines as [|l lines IH]; intros st; [reflexivity|].
  cbn [reader_loop fold_left]. fold (reader_loop lines (reader_step st l)).
  now rewrite IH, reader_step_cerr.
Qed.

(** C2, as stated, fails: no count of skipped lines can be read off what
    the reader returns, nor off what it prints; two files that differ by
    a skipped line give the same result. *)
Lemma no_skipped_count :
  ~ exists count : ReadResult -> nat,
      forall content,
        count (readLetterboxdCSV (one_file "diary.csv" content) "diary.csv")
        = skipped_count content.
Proof.
  intros [count H].
  pose proof (H diary_one) as H1.
  pose proof (H diary_one_and_bad_line) as H2.
  assert (E : readLetterboxdCSV (one_file "diary.csv" diary_one) "diary.csv"
              = readLetterboxdCSV
                  (one_file "diary.csv" diary_one_and_bad_line) "diary.csv")
    by (vm_compute; reflexivity).
  rewrite E, H2 in H1. vm_compute in H1. discriminate.
Qed.

(** A line with fewer than two fields that is not the second line of the
    file changes neither the records collected so far nor the console. *)
Lemma malformed_line_leaves_no_trace (st : ReaderState) (line : string) :
  rs_isFirstLine st = false ->
  rs_lineNumber st <> 1 ->
  malformed (strip_cr line) = true ->
  reader_step st line
  = mkReaderState (rs_movies st) (S (rs_lineNumber st)) false (rs_console st).
Proof.
  intros Hfirst Hnum Hbad. unfold reader_step. rewrite Hfirst.
  destruct (empty (strip_cr line)); [reflexivity|].
  unfold malformed in Hbad. apply Nat.ltb_lt in Hbad.
  destruct (Nat.eqb_spec (S (rs_lineNumber st)) 2) as [E|_]; [lia|].
  destruct (Nat.leb_spec 2 (List.length (parseCSVLine (strip_cr line))));
    [lia|reflexivity].
Qed.

Lemma reader_step_lineNumber (st : ReaderState) (line : string) :
  rs_lineNumber (reader_step st line) = S (rs_lineNumber st).
Proof.
  unfold reader_step.
  destruct (rs_isFirstLine st); [reflexivity|].
  destruct (empty (strip_cr line)); [reflexivity|].
  destruct (Nat.leb 2 (List.length (parseCSVLine (strip_cr line))));
    reflexivity.
Qed.

(** From the third line on the loop prints nothing. *)
Lemma reader_step_console (st : ReaderState) (line : string) :
  rs_isFirstLine st = false -> 2 <= rs_lineNumber st ->
  rs_console (reader_step st line) = rs_console st.
Proof.
  intros Hfirst Hnum. unfold reader_step. rewrite Hfirst.
  destruct (empty (strip_cr line)); [reflexivity|].
  destruct (Nat.eqb_spec (S (rs_lineNumber st)) 2) as [E|_]; [lia|].
  destruct (Nat.leb 2 (List.length (parseCSVLine (strip_cr line))));
    reflexivity.
Qed.

Lemma reader_loop_console (lines : list string) :
  forall st,
    rs_isFirstLine st = false -> 2 <= rs_lineNumber st ->
    rs_console (reader_loop lines st) = rs_console st.
Proof.
  induction lines as [|l lines IH]; intros st Hfirst Hnum; [reflexivity|].
  cbn [reader_loop fold_left]. fold (reader_loop lines (reader_step st l)).
  rewrite IH.
  - now apply reader_step_console.
  - now apply reader_step_data.
  - rewrite reader_step_lineNumber. lia.
Qed.

Lemma string_append_nil_r (s : string) : s ++ "" = s.
Proof. induction s as [|c s IH]; cbn; [reflexivity|now rewrite IH]. Qed.

(** C2, amended.  For a readable source the reader returns the ordered
    sequence of records and nothing else; no count of skipped lines is
    returned or printed.  What it writes is the header line, the number
    of fields of the second line of the file when that line is not blank,
    and the number of records read; nothing goes to [cerr]. *)
Theorem reader_result (fs : FileSystem) (filename content : string) :
  fs filename = Some content ->
  readLetterboxdCSV fs filename
  = mkReadResult (admitted content)
      (mkConsole
         (match getlines content with
          | [] => success_note 0
          | header :: rest =>
              (header_note header ++ first_line_note rest)
              ++ success_note (List.length (admitted content))
          end)
         "").
Proof.
  intros Hfs. unfold readLetterboxdCSV. rewrite Hfs.
  pose proof (reader_loop_movies (getlines content)) as Hm.
  fold (data_lines content) in Hm. fold (admitted content) in Hm.
  rewrite Hm. f_equal. unfold print.
  rewrite reader_loop_cerr. cbn [reader_init rs_console cerr]. f_equal.
  destruct (getlines content) as [|header [|l rest]].
  - cbn in Hm. rewrite <- Hm. reflexivity.
  - cbn [first_line_note]. rewrite string_append_nil_r. reflexivity.
  - cbn [reader_loop fold_left].
    fold (reader_loop rest (reader_step (reader_step reader_init header) l)).
    rewrite reader_loop_console.
    + unfold reader_step at 1. cbn [first_line_note].
      cbn [reader_step reader_init rs_isFirstLine rs_lineNumber].
      destruct (empty (strip_cr l)).
      * rewrite string_append_nil_r. reflexivity.
      * cbn [Nat.eqb].
        destruct (Nat.leb 2 (List.length (parseCSVLine (strip_cr l))));
          reflexivity.
    + now apply reader_step_data.
    + rewrite !reader_step_lineNumber. cbn. lia.
Qed.

Lemma reader_result_witness :
  one_file "diary.csv" diary_one_and_bad_line "diary.csv"
  = Some diary_one_and_bad_line /\
  readLetterboxdCSV (one_file "diary.csv" diary_one_and_bad_line) "diary.csv"
  = mkReadResult [mkMovie "2024-01-01" "Heat" "" "" "" "" "" ""]
      (mkConsole
         (header_note "Date,Name"
          ++ ("First data line has 2 fields" ++ endl ++ endl)
          ++ success_note 1) "").
Proof.
  assert (H : one_file "diary.csv" diary_one_and_bad_line "diary.csv"
              = Some diary_one_and_bad_line) by reflexivity.
  split; [exact H|].
  etransitivity; [exact (reader_result _ _ _ H)|].
  vm_compute. reflexivity.
Defined.

(** C3, as stated, fails: the value returned for a file that cannot be
    opened is the value returned for a file with only a header line, so
    no signal computed from it tells the two apart. *)
Lemma no_unavailable_signal :
  ~ exists unavailable : list Movie -> bool,
      forall (fs : FileSystem) (filename : string),
        unavailable (rr_movies (readLetterboxdCSV fs filename)) = true
        <-> fs filename = None.
Proof.
  intros [unavailable H].
  pose proof (H (fun _ => None) "diary.csv") as H1.
  pose proof (H (one_file "diary.csv" header_only) "diary.csv") as H2.
  assert (E1 : rr_movies (readLetterboxdCSV (fun _ => None) "diary.csv") = [])
    by reflexivity.
  assert (E2 : rr_movies (readLetterboxdCSV
                            (one_file "diary.csv" header_only) "diary.csv")
               = []) by (vm_compute; reflexivity).
  rewrite E1 in H1. rewrite E2 in H2.
  destruct H1 as [_ H1]. destruct H2 as [H2 _].
  specialize (H1 eq_refl). specialize (H2 H1). discriminate.
Qed.

(** C3, amended.  When the file cannot be opened the reader writes an
    error report to [cerr], nothing to [cout], and returns the empty
    sequence.  A readable file leaves [cerr] untouched, and one with at
    most a header line also returns the empty sequence: the returned
    value is the same in both cases, which differ only in what was
    written to the console, and [main] answers both with the same
    report before it exits. *)
Theorem unreadable_source (fs : FileSystem) (filename : string) :
  (fs filename = None ->
     readLetterboxdCSV fs filename
     = mkReadResult [] (mkConsole "" (open_error filename)) /\
     report_on_read (rr_movies (readLetterboxdCSV fs filename))
     = (no_movies_report, true)) /\
  (forall content,
     fs filename = Some content ->
     cerr (rr_console (readLetterboxdCSV fs filename)) = "" /\
     cerr (rr_console (readLetterboxdCSV fs filename))
       <> open_error filename /\
     (List.length (getlines content) <= 1 ->
      rr_movies (readLetterboxdCSV fs filename) = [] /\
      report_on_read (rr_movies (readLetterboxdCSV fs filename))
      = (no_movies_report, true))).
Proof.
  split.
  - intros Hfs. unfold readLetterboxdCSV. rewrite Hfs.
    split; reflexivity.
  - intros content Hfs. unfold readLetterboxdCSV. rewrite Hfs.
    cbn [rr_console rr_movies print cerr].
    rewrite reader_loop_cerr. cbn [reader_init rs_console cerr].
    split; [reflexivity|]. split.
    + unfold open_error. cbn. discriminate.
    + intros Hlen. rewrite reader_loop_movies.
      destruct (getlines content) as [|h [|l t]];
        [split; reflexivity..|].
      cbn in Hlen. lia.
Qed.

Lemma unreadable_source_witness :
  (fun _ : string => @None string) "diary.csv" = None /\
  readLetterboxdCSV (fun _ => None) "diary.csv"
  = mkReadResult [] (mkConsole "" (open_error "diary.csv")) /\
  one_file "diary.csv" header_only "diary.csv" = Some header_only /\
  List.length (getlines header_only) <= 1 /\
  rr_movies (readLetterboxdCSV (one_file "diary.csv" header_only) "diary.csv")
  = [].
Proof.
  assert (H0 : (fun _ : string => @None string) "diary.csv" = None)
    by reflexivity.
  assert (H1 : one_file "diary.csv" header_only "diary.csv"
               = Some header_only) by reflexivity.
  assert (H2 : List.length (getlines header_only) <= 1)
    by (vm_compute; lia).
  split; [exact H0|].
  split; [exact (proj1 (proj1 (unreadable_source (fun _ => None)
                                 "diary.csv") H0))|].
  split; [exact H1|]. split; [exact H2|].
  exact (proj1 (proj2 (proj2 (proj2 (unreadable_source
           (one_file "diary.csv" header_only) "diary.csv")
           header_only H1)) H2)).
Defined.

(** ** Orders *)

(** A comparison in three outcomes that is antisymmetric and whose
    [<>  Gt] is transitive induces a strict weak ordering. *)
Section KeyOrder.

Context {A K : Type}.
Variable cmp : K -> K -> comparison.
Variable key : A -> K.
Variable comp : A -> A -> bool.
Variable l : list A.

Hypothesis cmp_antisym : forall x y, cmp x y = CompOpp (cmp y x).
Hypothesis cmp_le_trans :
  forall x y z, cmp x y <> Gt -> cmp y z <> Gt -> cmp x z <> Gt.
Hypothesis comp_cmp :
  forall a b, In a l -> In b l -> comp a b = is_lt (cmp (key a) (key b)).

Lemma strict_weak_of_compare : strict_weak_on comp l.
Proof.
  constructor.
  - intros a Ha. rewrite (comp_cmp a a Ha Ha).
    pose proof (cmp_antisym (key a) (key a)) as H.
    destruct (cmp (key a) (key a)); simpl in *; congruence.
  - intros a b c Ha Hb Hc.
    rewrite (comp_cmp a b), (comp_cmp b c), (comp_cmp a c) by assumption.
    pose proof (cmp_antisym (key a) (key b)) as Hab.
    pose proof (cmp_antisym (key a) (key c)) as Hac.
    pose proof (cmp_le_trans (key b) (key c) (key a)) as Ht.
    destruct (cmp (key a) (key b)) eqn:E1; simpl; try discriminate.
    destruct (cmp (key b) (key c)) eqn:E2; simpl; try discriminate.
    intros _ _.
    destruct (cmp (key a) (key c)) eqn:E3; simpl; try reflexivity;
      exfalso; destruct (cmp (key c) (key a)) eqn:E4; simpl in Hac;
      try discriminate; destruct (cmp (key b) (key a)) eqn:E5;
      simpl in Hab; try discriminate; apply Ht; congruence.
  - intros a b c Ha Hb Hc. unfold equiv.
    rewrite (comp_cmp a b), (comp_cmp b a), (comp_cmp b c),
      (comp_cmp c b), (comp_cmp a c), (comp_cmp c a) by assumption.
    pose proof (cmp_antisym (key a) (key b)) as Hab.
    pose proof (cmp_antisym (key b) (key c)) as Hbc.
    pose proof (cmp_antisym (key a) (key c)) as Hac.
    pose proof (cmp_le_trans (key a) (key b) (key c)) as Ht1.
    pose proof (cmp_le_trans (key c) (key b) (key a)) as Ht2.
    destruct (cmp (key a) (key b)) eqn:E1,
             (cmp (key b) (key a)) eqn:E2; simpl in *; try discriminate.
    destruct (cmp (key b) (key c)) eqn:E3,
             (cmp (key c) (key b)) eqn:E4; simpl in *; try discriminate.
    intros _ _.
    destruct (cmp (key a) (key c)) eqn:E5,
             (cmp (key c) (key a)) eqn:E6; simpl in *;
      try discriminate; try reflexivity; exfalso;
      (apply Ht1; congruence) || (apply Ht2; congruence).
Qed.

End KeyOrder.

(** *** Strings *)

Lemma ascii_compare_le_trans (a b c : ascii) :
  Ascii.compare a b <> Gt -> Ascii.compare b c <> Gt ->
  Ascii.compare a c <> Gt.
Proof.
  unfold Ascii.compare. rewrite !N.compare_le_iff. intros; lia.
Qed.

Lemma ascii_compare_eq (a b : ascii) : Ascii.compare a b = Eq <-> a = b.
Proof.
  split; [apply Ascii.compare_eq_iff|].
  intros ->. unfold Ascii.compare. apply N.compare_refl.
Qed.

Lemma string_compare_le_trans (s1 : string) :
  forall s2 s3,
    String.compare s1 s2 <> Gt -> String.compare s2 s3 <> Gt ->
    String.compare s1 s3 <> Gt.
Proof.
  induction s1 as [|c1 s1 IH]; intros [|c2 s2] [|c3 s3]; simpl;
    try congruence.
  pose proof (ascii_compare_le_trans c1 c2 c3) as Ht.
  destruct (Ascii.compare c1 c2) eqn:E12; try congruence;
    destruct (Ascii.compare c2 c3) eqn:E23; try congruence; intros H12 H23.
  - apply ascii_compare_eq in E12, E23. subst.
    rewrite (proj2 (ascii_compare_eq c3 c3) eq_refl). now apply (IH s2).
  - apply ascii_compare_eq in E12. subst. now rewrite E23.
  - apply ascii_compare_eq in E23. subst. now rewrite E12.
  - destruct (Ascii.compare c1 c3) eqn:E13; try congruence.
    + apply ascii_compare_eq in E13. subst.
      rewrite Ascii.compare_antisym, E23 in E12. discriminate.
    + exfalso. apply Ht; congruence.
Qed.

Lemma by_name_strict_weak (l : list Movie) : strict_weak_on by_name l.
Proof.
  apply (strict_weak_of_compare String.compare name).
  - apply String.compare_antisym.
  - intros x y z. apply string_compare_le_trans.
  - reflexivity.
Qed.

Lemma equiv_by_name (a b : Movie) :
  equiv by_name a b = true <-> name a = name b.
Proof.
  unfold equiv, by_name, less, String.ltb.
  rewrite (String.compare_antisym (name b) (name a)).
  split.
  - destruct (String.compare (name a) (name b)) eqn:E; simpl;
      try discriminate.
    intros _. now apply String.compare_eq_iff.
  - intros ->.
    pose proof (String.compare_antisym (name b) (name b)) as H.
    destruct (String.compare (name b) (name b)); simpl in *; congruence.
Qed.

(** *** Numbers *)

Lemma rank_compare_antisym (a b : Z * Z * Z) :
  rank_compare a b = CompOpp (rank_compare b a).
Proof.
  destruct a as [[a1 a2] a3], b as [[b1 b2] b3]. unfold rank_compare.
  rewrite (Z.compare_antisym b1 a1), (Z.compare_antisym b2 a2),
    (Z.compare_antisym b3 a3).
  destruct (b1 ?= a1)%Z, (b2 ?= a2)%Z, (b3 ?= a3)%Z; reflexivity.
Qed.

Lemma rank_compare_le_trans (a b c : Z * Z * Z) :
  rank_compare a b <> Gt -> rank_compare b c <> Gt -> rank_compare a c <> Gt.
Proof.
  destruct a as [[a1 a2] a3], b as [[b1 b2] b3], c as [[c1 c2] c3].
  unfold rank_compare.
  destruct (Z.compare_spec a1 b1), (Z.compare_spec b1 c1),
    (Z.compare_spec a1 c1); try congruence; try lia;
  destruct (Z.compare_spec a2 b2), (Z.compare_spec b2 c2),
    (Z.compare_spec a2 c2); try congruence; try lia;
  destruct (Z.compare_spec a3 b3), (Z.compare_spec b3 c3),
    (Z.compare_spec a3 c3); try congruence; try lia.
Qed.

Lemma SFcompare_rank (x y : double) :
  is_nan x = false -> is_nan y = false ->
  SFcompare x y = Some (rank_compare (rank x) (rank y)).
Proof.
  destruct x as [sx|sx| |sx mx ex], y as [sy|sy| |sy my ey];
    try discriminate; intros _ _;
    try (destruct sx; destruct sy; reflexivity).
  destruct sx, sy; cbn [SFcompare rank rank_compare]; try reflexivity.
  rewrite Z.compare_opp, (Z.compare_antisym ex ey).
  destruct (ex ?= ey)%Z; reflexivity.
Qed.

(** Short of NaN, neither rating is greater than the other exactly when
    the two are equal. *)
Lemma equiv_by_rating (a b : Movie) :
  is_nan (rating_value a) = false -> is_nan (rating_value b) = false ->
  equiv by_rating a b = same_rating a b.
Proof.
  intros Ha Hb. unfold equiv, by_rating, same_rating, gtb, Double.eqb.
  unfold SFltb, SFeqb.
  rewrite (SFcompare_rank _ _ Ha Hb), (SFcompare_rank _ _ Hb Ha).
  rewrite (rank_compare_antisym (rank (rating_value b))).
  destruct (rank_compare (rank (rating_value a)) (rank (rating_value b)));
    reflexivity.
Qed.

Lemma by_rating_strict_weak (l : list Movie) :
  Forall (fun m => is_nan (rating_value m) = false) l ->
  strict_weak_on by_rating l.
Proof.
  intros Hnan. rewrite Forall_forall in Hnan.
  apply (strict_weak_of_compare
           (fun x y => rank_compare y x) (fun m => rank (rating_value m))).
  - intros x y. apply rank_compare_antisym.
  - intros x y z H1 H2. apply (rank_compare_le_trans z y x); assumption.
  - intros a b Ha Hb. unfold by_rating, gtb, SFltb.
    now rewrite (SFcompare_rank _ _ (Hnan b Hb) (Hnan a Ha)).
Qed.

(** ** Sorted permutations under a strict weak ordering *)

Section SortedPermutations.

Local Open Scope list_scope.

Context {A : Type}.
Variable comp : A -> A -> bool.

Lemma strict_weak_incl (l l' : list A) :
  strict_weak_on comp l -> incl l' l -> strict_weak_on comp l'.
Proof.
  intros [Hi Ht He] Hincl. constructor.
  - intros a Ha. apply Hi. now apply Hincl.
  - intros a b c Ha Hb Hc. apply Ht; now apply Hincl.
  - intros a b c Ha Hb Hc. apply He; now apply Hincl.
Qed.

Lemma strict_weak_perm (l l' : list A) :
  strict_weak_on comp l -> Permutation l l' -> strict_weak_on comp l'.
Proof.
  intros Hs Hp. apply (strict_weak_incl l); [assumption|].
  intros x Hx. apply (Permutation_in x (Permutation_sym Hp) Hx).
Qed.

Lemma equiv_sym (a b : A) : equiv comp a b = equiv comp b a.
Proof. unfold equiv. apply andb_comm. Qed.

Section OnList.

Variable l : list A.
Hypothesis Hswo : strict_weak_on comp l.

Lemma swo_asym (a b : A) :
  In a l -> In b l -> comp a b = true -> comp b a = false.
Proof.
  intros Ha Hb Hab. destruct (comp b a) eqn:Hba; [|reflexivity].
  rewrite <- (swo_irrefl comp l Hswo a Ha).
  symmetry. now apply (swo_trans comp l Hswo a b a).
Qed.

Lemma swo_equiv_refl (a : A) : In a l -> equiv comp a a = true.
Proof.
  intros Ha. unfold equiv. now rewrite (swo_irrefl comp l Hswo a Ha).
Qed.

(** An element equivalent to one that is before [c] is before [c]. *)
Lemma swo_equiv_before (a b c : A) :
  In a l -> In b l -> In c l ->
  equiv comp a b = true -> comp b c = true -> comp a c = true.
Proof.
  intros Ha Hb Hc Hab Hbc.
  destruct (comp a c) eqn:Hac; [reflexivity|exfalso].
  destruct (comp c a) eqn:Hca.
  - pose proof (swo_trans comp l Hswo b c a Hb Hc Ha Hbc Hca) as Hba.
    unfold equiv in Hab. rewrite Hba in Hab.
    rewrite andb_false_r in Hab. discriminate.
  - assert (Heq : equiv comp a c = true)
      by (unfold equiv; now rewrite Hac, Hca).
    rewrite equiv_sym in Hab.
    pose proof (swo_equiv_trans comp l Hswo b a c Hb Ha Hc Hab Heq) as H.
    unfold equiv in H. rewrite Hbc in H. discriminate.
Qed.

(** An element equivalent to one that is after [c] is after [c]. *)
Lemma swo_equiv_after (a b c : A) :
  In a l -> In b l -> In c l ->
  equiv comp a b = true -> comp c b = true -> comp c a = true.
Proof.
  intros Ha Hb Hc Hab Hcb.
  destruct (comp c a) eqn:Hca; [reflexivity|exfalso].
  destruct (comp a c) eqn:Hac.
  - pose proof (swo_trans comp l Hswo a c b Ha Hc Hb Hac Hcb) as Hab'.
    unfold equiv in Hab. rewrite Hab' in Hab. discriminate.
  - assert (Heq : equiv comp c a = true)
      by (unfold equiv; now rewrite Hac, Hca).
    pose proof (swo_equiv_trans comp l Hswo c a b Hc Ha Hb Heq Hab) as H.
    unfold equiv in H. rewrite Hcb in H. discriminate.
Qed.

End OnList.

(** *** Insertion sort meets the contract of [std::sort] *)

Lemma insert_by_perm (x : A) (l : list A) :
  Permutation (x :: l) (insert_by comp x l).
Proof.
  induction l as [|y l IH]; simpl; [reflexivity|].
  destruct (comp x y); [reflexivity|].
  rewrite perm_swap. now constructor.
Qed.

Lemma isort_perm (l : list A) : Permutation l (isort comp l).
Proof.
  induction l as [|x l IH]; simpl; [constructor|].
  rewrite <- insert_by_perm. now constructor.
Qed.

Lemma insert_by_sorted (x : A) (l : list A) :
  strict_weak_on comp (x :: l) ->
  sorted_by comp l -> sorted_by comp (insert_by comp x l).
Proof.
  intros Hswo Hs. induction Hs as [|y l Hs IH Hy]; simpl.
  - constructor; constructor.
  - destruct (comp x y) eqn:Hxy.
    + constructor; [now constructor|].
      constructor.
      * apply (swo_asym (x :: y :: l) Hswo); simpl; auto.
      * rewrite Forall_forall in Hy |- *. intros z Hz.
        destruct (comp z x) eqn:Hzx; [exfalso|reflexivity].
        assert (Hzy : comp z y = true).
        { apply (swo_trans comp _ Hswo z x y); simpl; auto. }
        rewrite (Hy z Hz) in Hzy. discriminate.
    + constructor.
      * apply IH. apply (strict_weak_incl (x :: y :: l)); [assumption|].
        intros z [<-|Hz]; simpl; auto.
      * rewrite Forall_forall in Hy |- *. intros z Hz.
        apply (Permutation_in z (Permutation_sym (insert_by_perm x l)))
          in Hz.
        destruct Hz as [<-|Hz]; [assumption|now apply Hy].
Qed.

Lemma isort_sorted (l : list A) :
  strict_weak_on comp l -> sorted_by comp (isort comp l).
Proof.
  induction l as [|x l IH]; intros Hswo; simpl; [constructor|].
  apply insert_by_sorted.
  - apply (strict_weak_perm (x :: l)); [assumption|].
    constructor. apply isort_perm.
  - apply IH. apply (strict_weak_incl (x :: l)); [assumption|].
    intros z Hz. now right.
Qed.

Lemma std_sort_post_exists (l : list A) :
  strict_weak_on comp l -> std_sort_post comp l (isort comp l).
Proof.
  intros Hswo. split; [apply isort_perm|now apply isort_sorted].
Qed.

(** *** Two outcomes agree up to equivalence, position by position *)

Lemma sorted_by_app (p q : list A) :
  sorted_by comp (p ++ q) <->
  sorted_by comp p /\ sorted_by comp q /\
  (forall x y, In x p -> In y q -> comp y x = false).
Proof.
  unfold sorted_by. induction p as [|a p IH]; simpl.
  - split; [intros H|tauto].
    split; [constructor|]. split; [exact H|]. intros x y [].
  - split.
    + intros H. inversion H as [|? ? Hs Ha]; subst.
      apply IH in Hs. destruct Hs as (Hp & Hq & Hpq).
      rewrite Forall_app in Ha. destruct Ha as [Hap Haq].
      split; [now constructor|]. split; [assumption|].
      intros x y [<-|Hx] Hy; [|now apply Hpq].
      rewrite Forall_forall in Haq. now apply Haq.
    + intros (Hp & Hq & Hpq). inversion Hp as [|? ? Hs Ha]; subst.
      constructor.
      * apply IH. split; [assumption|]. split; [assumption|].
        intros x y Hx Hy. apply Hpq; auto.
      * rewrite Forall_app. split; [assumption|].
        rewrite Forall_forall. intros y Hy. apply Hpq; auto.
Qed.

Lemma sorted_head_least (a : A) (l : list A) (x : A) :
  strict_weak_on comp (a :: l) -> sorted_by comp (a :: l) ->
  In x (a :: l) -> comp x a = false.
Proof.
  intros Hswo Hs [<-|Hx].
  - apply (swo_irrefl comp _ Hswo). now left.
  - inversion Hs as [|? ? _ Ha]; subst.
    rewrite Forall_forall in Ha. now apply Ha.
Qed.

Lemma sorted_outcomes_agree (n : nat) :
  forall l1 l2,
    List.length l1 = n ->
    strict_weak_on comp l1 -> Permutation l1 l2 ->
    sorted_by comp l1 -> sorted_by comp l2 ->
    Forall2 (fun a b => equiv comp a b = true) l1 l2.
Proof.
  induction n as [|n IH]; intros l1 l2 Hlen Hswo Hperm Hs1 Hs2.
  - destruct l1; [|discriminate].
    apply Permutation_nil in Hperm. subst. constructor.
  - destruct l1 as [|a l1]; [discriminate|]. injection Hlen as Hlen.
    destruct l2 as [|b l2];
      [apply Permutation_sym, Permutation_nil in Hperm; discriminate|].
    assert (Hswo2 : strict_weak_on comp (b :: l2))
      by (apply (strict_weak_perm (a :: l1)); assumption).
    assert (Ha2 : In a (b :: l2))
      by (apply (Permutation_in a Hperm); now left).
    assert (Hb1 : In b (a :: l1))
      by (apply (Permutation_in b (Permutation_sym Hperm)); now left).
    assert (Hab : equiv comp a b = true).
    { unfold equiv.
      rewrite (sorted_head_least b l2 a Hswo2 Hs2 Ha2),
        (sorted_head_least a l1 b Hswo Hs1 Hb1). reflexivity. }
    assert (Hswo1' : strict_weak_on comp l1).
    { apply (strict_weak_incl (a :: l1)); [assumption|].
      intros z Hz. now right. }
    assert (Hs1' : sorted_by comp l1) by (inversion Hs1; assumption).
    assert (Hs2' : sorted_by comp l2) by (inversion Hs2; assumption).
    constructor; [exact Hab|].
    destruct Ha2 as [->|Ha2].
    + apply Permutation_cons_inv in Hperm. now apply IH.
    + apply in_split in Ha2. destruct Ha2 as (p & q & ->).
      assert (Hperm' : Permutation l1 (p ++ b :: q)).
      { rewrite <- Permutation_middle.
        apply (Permutation_cons_app_inv (b :: p) q Hperm). }
      assert (Hin2 : forall z, In z (b :: p ++ a :: q) -> In z (a :: l1)).
      { intros z Hz.
        apply (Permutation_in z (Permutation_sym Hperm) Hz). }
      apply sorted_by_app in Hs2'. destruct Hs2' as (Hp & Haq & Hpaq).
      assert (Hsq : sorted_by comp (p ++ b :: q)).
      { apply sorted_by_app. split; [assumption|]. split.
        - inversion Haq as [|? ? Hq Hfq]; subst.
          constructor; [assumption|].
          inversion Hs2 as [|? ? _ Hfb]; subst.
          rewrite Forall_app in Hfb. destruct Hfb as [_ Hfb].
          now inversion Hfb.
        - intros x y Hx [<-|Hy].
          + destruct (comp b x) eqn:Hbx; [exfalso|reflexivity].
            assert (Hax : comp a x = true).
            { apply (swo_equiv_before (a :: l1) Hswo a b x);
                try assumption; [now left|].
              apply Hin2. right. apply in_or_app. now left. }
            rewrite (Hpaq x a Hx) in Hax; [discriminate|now left].
          + apply Hpaq; [assumption|now right]. }
      pose proof (IH l1 (p ++ b :: q) Hlen Hswo1' Hperm' Hs1' Hsq) as HF.
      apply Forall2_app_inv_r in HF.
      destruct HF as (l1a & l1b & HFa & HFb & ->).
      inversion HFb as [|c ? l1c ? Hcb HFc]; subst.
      apply Forall2_app; [assumption|]. constructor; [|assumption].
      apply (swo_equiv_trans comp _ Hswo c b a).
      * right. apply in_or_app. right. now left.
      * apply Hin2. now left.
      * now left.
      * exact Hcb.
      * now rewrite equiv_sym.
Qed.

End SortedPermutations.

(** ** Checking a concrete outcome *)

Lemma Movie_eqb_eq (a b : Movie) : Movie_eqb a b = true -> a = b.
Proof.
  unfold Movie_eqb. rewrite !andb_true_iff, !String.eqb_eq.
  destruct a, b; cbn. intros [[[[[[[-> ->] ->] ->] ->] ->] ->] ->].
  reflexivity.
Qed.

Lemma remove_first_perm (x : Movie) (l l' : list Movie) :
  remove_first x l = Some l' -> Permutation l (x :: l').
Proof.
  revert l'. induction l as [|y l IH]; intros l' H; simpl in H.
  - discriminate.
  - destruct (Movie_eqb x y) eqn:E.
    + apply Movie_eqb_eq in E. injection H as <-. now subst.
    + destruct (remove_first x l) as [t|]; [|discriminate].
      injection H as <-. rewrite (IH t eq_refl). apply perm_swap.
Qed.

Lemma perm_check_sound (l1 : list Movie) :
  forall l2, perm_check l1 l2 = true -> Permutation l1 l2.
Proof.
  induction l1 as [|x l1 IH]; intros l2 H; simpl in H.
  - destruct l2; [constructor|discriminate].
  - destruct (remove_first x l2) as [l2'|] eqn:E; [|discriminate].
    rewrite (remove_first_perm x l2 l2' E). constructor. now apply IH.
Qed.

Lemma sorted_check_sound (comp : Movie -> Movie -> bool) (l : list Movie) :
  sorted_check comp l = true -> sorted_by comp l.
Proof.
  induction l as [|a l IH]; simpl; intros H; [constructor|].
  apply andb_true_iff in H. destruct H as [Ha Hl].
  constructor; [now apply IH|].
  rewrite forallb_forall in Ha. rewrite Forall_forall.
  intros b Hb. now apply negb_true_iff, Ha.
Qed.

Lemma std_sort_post_check (comp : Movie -> Movie -> bool)
    (before after : list Movie) :
  perm_check before after = true -> sorted_check comp after = true ->
  std_sort_post comp before after.
Proof.
  intros Hp Hs. split; [now apply perm_check_sound|].
  now apply sorted_check_sound.
Qed.

Lemma diary17_read :
  rr_movies (readLetterboxdCSV (one_file "diary.csv" diary17_csv) "diary.csv")
  = diary17.
Proof. vm_compute. reflexivity. Qed.

Lemma diary17_no_nan :
  Forall (fun m => is_nan (rating_value m) = false) diary17.
Proof. repeat constructor. Qed.

Lemma diary17_sorted_by_name : sort_step "3" diary17 diary17_by_name.
Proof.
  apply sort_alphabetical; [reflexivity|apply by_name_strict_weak|].
  apply std_sort_post_check; vm_compute; reflexivity.
Qed.

Lemma diary17_sorted_by_rating : sort_step "4" diary17 diary17_by_rating.
Proof.
  apply sort_highest_rated;
    [reflexivity|apply by_rating_strict_weak, diary17_no_nan|].
  apply std_sort_post_check; vm_compute; reflexivity.
Qed.

(** ** The ordering of the collection *)

(** An outcome always exists, short of a rating that reads as NaN under
    the fourth choice. *)
Lemma sort_step_exists (sortChoice : string) (movies : list Movie) :
  (sortChoice = "4" ->
   Forall (fun m => is_nan (rating_value m) = false) movies) ->
  exists after, sort_step sortChoice movies after.
Proof.
  intros Hnan.
  destruct (string_dec sortChoice "2") as [E2|N2].
  { exists (rev movies). now apply sort_oldest_first. }
  destruct (string_dec sortChoice "3") as [E3|N3].
  { exists (isort by_name movies). apply sort_alphabetical; [assumption| |].
    - apply by_name_strict_weak.
    - apply std_sort_post_exists, by_name_strict_weak. }
  destruct (string_dec sortChoice "4") as [E4|N4].
  { exists (isort by_rating movies).
    apply sort_highest_rated; [assumption| |].
    - now apply by_rating_strict_weak, Hnan.
    - now apply std_sort_post_exists, by_rating_strict_weak, Hnan. }
  exists movies. now apply sort_default.
Qed.

Lemma sort_step_perm (sortChoice : string) (movies after : list Movie) :
  sort_step sortChoice movies after -> Permutation movies after.
Proof.
  intros [_|after' _ _ [Hp _]|after' _ _ [Hp _]|_ _ _].
  - apply Permutation_rev.
  - exact Hp.
  - exact Hp.
  - reflexivity.
Qed.

Lemma same_names (l1 l2 : list Movie) :
  Forall2 (fun a b => equiv by_name a b = true) l1 l2 ->
  map name l1 = map name l2.
Proof.
  induction 1 as [|a b l1 l2 Hab _ IH]; [reflexivity|].
  cbn [map]. apply equiv_by_name in Hab. now rewrite Hab, IH.
Qed.

(** C1, as stated, fails.  On a diary of seventeen entries, read from its
    file, the GNU [std::sort] leaves the two entries of the title watched
    twice in the reverse of their file order, and under the ordering by
    rating it reorders the entries of equal rating; the standard allows
    both outcomes. *)
Lemma sort_not_stable :
  rr_movies (readLetterboxdCSV (one_file "diary.csv" diary17_csv) "diary.csv")
  = diary17 /\
  GnuSort.sort by_name diary17 = Some diary17_by_name /\
  sort_step "3" diary17 diary17_by_name /\
  ~ stable same_name diary17 diary17_by_name /\
  GnuSort.sort by_rating diary17 = Some diary17_by_rating /\
  sort_step "4" diary17 diary17_by_rating /\
  ~ stable same_rating diary17 diary17_by_rating.
Proof.
  split; [exact diary17_read|].
  split; [vm_compute; reflexivity|].
  split; [exact diary17_sorted_by_name|].
  split.
  { intros H. specialize (H (entry "2024-03-16" "Whiplash" "5")).
    vm_compute in H. discriminate. }
  split; [vm_compute; reflexivity|].
  split; [exact diary17_sorted_by_rating|].
  intros H. specialize (H (entry "2024-03-15" "Memento" "4.5")).
  vm_compute in H. discriminate.
Qed.

(** C1, amended.  Sorting by title or by rating leaves a permutation of
    the records in which no record is followed by one the comparison puts
    before it.  Whatever [std::sort] does with records of equal key, any
    two outcomes agree position by position up to the key: the same
    titles at the same positions, and ratings of which neither is greater
    than the other.  The order of records with equal keys among
    themselves is not determined, and need not be the file order. *)
Theorem sort_orders_by_key (sortChoice : string)
    (movies after : list Movie) :
  sort_step sortChoice movies after ->
  (sortChoice = "3" ->
     Permutation movies after /\ sorted_by by_name after /\
     forall after', sort_step "3" movies after' ->
                    map name after' = map name after) /\
  (sortChoice = "4" ->
     Permutation movies after /\ sorted_by by_rating after /\
     forall after', sort_step "4" movies after' ->
       Forall2 (fun a b => equiv by_rating a b = true) after' after).
Proof.
  intros Hstep. pose proof (sort_step_perm _ _ _ Hstep) as Hperm.
  split; intros ->; (split; [exact Hperm|]).
  - inversion Hstep as [E|? _ Hswo [_ Hs]|? E|N2 N3 N4];
      try discriminate; try congruence.
    split; [exact Hs|]. intros after' Hstep'.
    inversion Hstep' as [E|? _ _ [Hp' Hs']|? E|N2 N3 N4];
      try discriminate; try congruence.
    apply same_names.
    apply (sorted_outcomes_agree by_name (List.length after')).
    + reflexivity.
    + apply by_name_strict_weak.
    + now rewrite <- Hp'.
    + exact Hs'.
    + exact Hs.
  - inversion Hstep as [E|? E|? _ Hswo [_ Hs]|N2 N3 N4];
      try discriminate; try congruence.
    split; [exact Hs|]. intros after' Hstep'.
    inversion Hstep' as [E|? E|? _ _ [Hp' Hs']|N2 N3 N4];
      try discriminate; try congruence.
    apply (sorted_outcomes_agree by_rating (List.length after')).
    + reflexivity.
    + apply (strict_weak_perm by_rating movies); assumption.
    + now rewrite <- Hp'.
    + exact Hs'.
    + exact Hs.
Qed.

Lemma sort_orders_by_key_witness :
  sort_step "3" diary17 diary17_by_name /\
  Permutation diary17 diary17_by_name /\
  sorted_by by_name diary17_by_name.
Proof.
  pose proof (proj1 (sort_orders_by_key "3" diary17 diary17_by_name
                       diary17_sorted_by_name) eq_refl) as H.
  split; [exact diary17_sorted_by_name|].
  split; [exact (proj1 H)|exact (proj1 (proj2 H))].
Defined.

(** ** The ordering step on every input *)

(** *** The GNU [std::sort] only moves the elements *)

Section GnuSortPermutes.

Context {A : Type}.
Variable comp : A -> A -> bool.

Lemma set_perm (v : list A) (i : nat) (x old : A) :
  GnuSort.get v i = Some old ->
  Permutation (x :: v) (old :: GnuSort.set v i x).
Proof.
  revert i. induction v as [|h t IH]; intros [|j] H; cbn in H;
    try discriminate.
  - injection H as ->. cbn. apply perm_swap.
  - cbn [GnuSort.set]. rewrite perm_swap.
    rewrite (perm_swap h old). apply perm_skip. now apply IH.
Qed.

Lemma set_length (v : list A) (i : nat) (x : A) :
  List.length (GnuSort.set v i x) = List.length v.
Proof.
  revert i. induction v as [|h t IH]; intros [|j]; cbn; auto.
Qed.

Lemma get_set_eq (v : list A) (i : nat) (x old : A) :
  GnuSort.get v i = Some old -> GnuSort.get (GnuSort.set v i x) i = Some x.
Proof.
  revert i. induction v as [|h t IH]; intros [|j] H; cbn in *;
    try discriminate; auto.
Qed.

Lemma get_set_neq (v : list A) (i j : nat) (x : A) :
  i <> j -> GnuSort.get (GnuSort.set v i x) j = GnuSort.get v j.
Proof.
  revert i j. induction v as [|h t IH]; intros [|i] [|j] H; cbn;
    try reflexivity; try congruence.
  apply IH. congruence.
Qed.

Lemma iter_swap_perm (v v' : list A) (i j : nat) :
  GnuSort.iter_swap v i j = Some v' -> Permutation v v'.
Proof.
  unfold GnuSort.iter_swap, GnuSort.bind.
  destruct (GnuSort.get v i) as [x|] eqn:Ei; [|discriminate].
  destruct (GnuSort.get v j) as [y|] eqn:Ej; [|discriminate].
  intros [= <-].
  assert (Hj : GnuSort.get (GnuSort.set v i y) j = Some y).
  { destruct (Nat.eq_dec i j) as [<-|Hne].
    - exact (get_set_eq v i y x Ei).
    - now rewrite get_set_neq. }
  apply (Permutation_cons_inv (a := y)).
  rewrite (set_perm v i y x Ei).
  apply (set_perm (GnuSort.set v i y) j x y Hj).
Qed.

Lemma move_median_to_first_perm (v v' : list A) (result a b c : nat) :
  GnuSort.move_median_to_first comp v result a b c = Some v' ->
  Permutation v v'.
Proof.
  unfold GnuSort.move_median_to_first, GnuSort.bind.
  destruct (GnuSort.get v a) as [xa|]; [|discriminate].
  destruct (GnuSort.get v b) as [xb|]; [|discriminate].
  destruct (GnuSort.get v c) as [xc|]; [|discriminate].
  destruct (comp xa xb), (comp xb xc), (comp xa xc);
    apply iter_swap_perm.
Qed.

Lemma linear_insert_loop_perm (val : A) (last : nat) :
  forall (v v' : list A) (h : A),
    GnuSort.get v last = Some h ->
    GnuSort.linear_insert_loop comp val v last = Some v' ->
    Permutation (val :: v) (h :: v').
Proof.
  induction last as [|next IH]; intros v v' h Hh; [discriminate|].
  cbn [GnuSort.linear_insert_loop]. unfold GnuSort.bind.
  destruct (GnuSort.get v next) as [x|] eqn:Ex; [|discriminate].
  destruct (comp val x).
  - intros Hloop.
    assert (Hx : GnuSort.get (GnuSort.set v (S next) x) next = Some x).
    { rewrite get_set_neq; [exact Ex|lia]. }
    pose proof (IH _ _ _ Hx Hloop) as H1.
    pose proof (set_perm v (S next) x h Hh) as H2.
    apply (Permutation_cons_inv (a := x)).
    rewrite (perm_swap val x v). rewrite H2.
    rewrite (perm_swap h val). rewrite H1.
    rewrite (perm_swap x h). reflexivity.
  - intros [= <-]. exact (set_perm v (S next) val h Hh).
Qed.

Lemma unguarded_linear_insert_perm (v v' : list A) (last : nat) :
  GnuSort.unguarded_linear_insert comp v last = Some v' ->
  Permutation v v'.
Proof.
  unfold GnuSort.unguarded_linear_insert, GnuSort.bind.
  destruct (GnuSort.get v last) as [val|] eqn:E; [|discriminate].
  intros H. apply (Permutation_cons_inv (a := val)).
  exact (linear_insert_loop_perm val last v v' val E H).
Qed.

Lemma skipn_get (v : list A) (i : nat) (x : A) :
  GnuSort.get v i = Some x -> skipn i v = x :: skipn (S i) v.
Proof.
  revert i. induction v as [|h t IH]; intros [|j] H; cbn in H;
    try discriminate.
  - now injection H as ->.
  - cbn [skipn]. now apply IH.
Qed.

Lemma rotate_to_first_perm (v : list A) (first i : nat) (val : A) :
  first <= i -> GnuSort.get v i = Some val ->
  Permutation v (GnuSort.rotate_to_first v first i val).
Proof.
  intros Hle Hget. unfold GnuSort.rotate_to_first.
  rewrite <- (firstn_skipn first v) at 1. apply Permutation_app_head.
  rewrite <- (firstn_skipn (i - first) (skipn first v)) at 1.
  rewrite skipn_skipn.
  replace (i - first + first) with i by lia.
  rewrite (skipn_get v i val Hget).
  symmetry. apply Permutation_middle.
Qed.

Lemma insertion_loop_perm (count : nat) :
  forall (v v' : list A) (first i : nat),
    first <= i ->
    GnuSort.insertion_loop comp count v first i = Some v' ->
    Permutation v v'.
Proof.
  induction count as [|n IH]; intros v v' first i Hle.
  - intros [= <-]. reflexivity.
  - cbn [GnuSort.insertion_loop]. unfold GnuSort.bind.
    destruct (GnuSort.get v i) as [xi|] eqn:Ei; [|discriminate].
    destruct (GnuSort.get v first) as [xf|]; [|discriminate].
    destruct (comp xi xf).
    + intros H. rewrite (rotate_to_first_perm v first i xi Hle Ei).
      apply (IH _ _ first (S i)); [lia|exact H].
    + destruct (GnuSort.unguarded_linear_insert comp v i) as [v1|] eqn:E1;
        [|discriminate].
      intros H. rewrite (unguarded_linear_insert_perm v v1 i E1).
      apply (IH _ _ first (S i)); [lia|exact H].
Qed.

Lemma insertion_sort_perm (v v' : list A) (first last : nat) :
  GnuSort.insertion_sort comp v first last = Some v' -> Permutation v v'.
Proof.
  unfold GnuSort.insertion_sort. destruct (Nat.eqb first last).
  - intros [= <-]. reflexivity.
  - apply insertion_loop_perm. lia.
Qed.

Lemma unguarded_insertion_loop_perm (count : nat) :
  forall (v v' : list A) (i : nat),
    GnuSort.unguarded_insertion_loop comp count v i = Some v' ->
    Permutation v v'.
Proof.
  induction count as [|n IH]; intros v v' i.
  - intros [= <-]. reflexivity.
  - cbn [GnuSort.unguarded_insertion_loop]. unfold GnuSort.bind.
    destruct (GnuSort.unguarded_linear_insert comp v i) as [v1|] eqn:E1;
      [|discriminate].
    intros H. rewrite (unguarded_linear_insert_perm v v1 i E1).
    exact (IH _ _ _ H).
Qed.

Lemma final_insertion_sort_perm (v v' : list A) (first last : nat) :
  GnuSort.final_insertion_sort comp v first last = Some v' ->
  Permutation v v'.
Proof.
  unfold GnuSort.final_insertion_sort, GnuSort.bind.
  destruct (Nat.ltb GnuSort._S_threshold (last - first)).
  - destruct (GnuSort.insertion_sort comp v first
                (first + GnuSort._S_threshold)) as [v1|] eqn:E1;
      [|discriminate].
    intros H. rewrite (insertion_sort_perm _ _ _ _ E1).
    exact (unguarded_insertion_loop_perm _ _ _ _ H).
  - apply insertion_sort_perm.
Qed.

Lemma unguarded_partition_perm (fuel : nat) :
  forall (v v' : list A) (first last pivot cut : nat),
    GnuSort.unguarded_partition comp fuel v first last pivot
    = Some (v', cut) ->
    Permutation v v'.
Proof.
  induction fuel as [|n IH]; intros v v' first last pivot cut;
    [discriminate|].
  cbn [GnuSort.unguarded_partition]. unfold GnuSort.bind.
  destruct (GnuSort.scan_up comp (List.length v) v first pivot)
    as [first1|]; [|discriminate].
  destruct last as [|last0]; [discriminate|].
  destruct (GnuSort.scan_down comp v pivot last0) as [last1|];
    [|discriminate].
  destruct (negb (Nat.ltb first1 last1)).
  - intros [= <- _]. reflexivity.
  - destruct (GnuSort.iter_swap v first1 last1) as [v1|] eqn:E1;
      [|discriminate].
    intros H. rewrite (iter_swap_perm _ _ _ _ E1). exact (IH _ _ _ _ _ _ H).
Qed.

Lemma unguarded_partition_pivot_perm (v v' : list A)
    (first last cut : nat) :
  GnuSort.unguarded_partition_pivot comp v first last = Some (v', cut) ->
  Permutation v v'.
Proof.
  unfold GnuSort.unguarded_partition_pivot, GnuSort.bind.
  destruct (GnuSort.move_median_to_first comp v first (first + 1)
              (first + (last - first) / 2) (last - 1)) as [v1|] eqn:E1;
    [|discriminate].
  intros H. rewrite (move_median_to_first_perm _ _ _ _ _ _ E1).
  exact (unguarded_partition_perm _ _ _ _ _ _ _ H).
Qed.

Lemma introsort_loop_perm (depth_limit : nat) :
  forall (v v' : list A) (first last : nat),
    GnuSort.introsort_loop comp depth_limit v first last = Some v' ->
    Permutation v v'.
Proof.
  induction depth_limit as [|d IH]; intros v v' first last;
    cbn [GnuSort.introsort_loop];
    destruct (Nat.ltb GnuSort._S_threshold (last - first));
    try discriminate; try (intros [= <-]; reflexivity).
  unfold GnuSort.bind.
  destruct (GnuSort.unguarded_partition_pivot comp v first last)
    as [[v1 cut]|] eqn:E1; [|discriminate].
  destruct (GnuSort.introsort_loop comp d v1 cut last) as [v2|] eqn:E2;
    [|discriminate].
  intros H. rewrite (unguarded_partition_pivot_perm _ _ _ _ _ E1).
  rewrite (IH _ _ _ _ E2). exact (IH _ _ _ _ H).
Qed.

(** Whatever the comparison does, a strict weak ordering or not, what
    the GNU [sort] returns holds the elements it was given. *)
Lemma gnu_sort_perm (v v' : list A) :
  GnuSort.sort comp v = Some v' -> Permutation v v'.
Proof.
  unfold GnuSort.sort, GnuSort.bind.
  destruct (Nat.eqb (List.length v) 0).
  - intros [= <-]. reflexivity.
  - destruct (GnuSort.introsort_loop comp (Nat.log2 (List.length v) * 2)
                v 0 (List.length v)) as [v1|] eqn:E1; [|discriminate].
    intros H. rewrite (introsort_loop_perm _ _ _ _ _ E1).
    exact (final_insertion_sort_perm _ _ _ _ H).
Qed.

(** *** Up to sixteen elements the GNU [sort] always returns *)

(** The insertion of [val] stops at the first element at the latest, when
    [val] is not before it: it never reads in front of the vector. *)
Lemma linear_insert_loop_some (val : A) (last : nat) :
  forall (v : list A) (x0 : A),
    last < List.length v -> 0 < last ->
    GnuSort.get v 0 = Some x0 -> comp val x0 = false ->
    exists v', GnuSort.linear_insert_loop comp val v last = Some v' /\
               List.length v' = List.length v.
Proof.
  induction last as [|next IH]; intros v x0 Hlt Hpos H0 Hc; [lia|].
  cbn [GnuSort.linear_insert_loop]. unfold GnuSort.bind.
  destruct (GnuSort.get v next) as [x|] eqn:Ex.
  2:{ apply nth_error_None in Ex. lia. }
  destruct (comp val x) eqn:Ecx.
  - destruct next as [|next'].
    { rewrite H0 in Ex. injection Ex as <-. congruence. }
    destruct (IH (GnuSort.set v (S (S next')) x) x0) as (v' & Hv' & Hlen).
    + rewrite set_length. lia.
    + lia.
    + rewrite get_set_neq; [exact H0|lia].
    + exact Hc.
    + exists v'. split; [exact Hv'|]. now rewrite Hlen, set_length.
  - eexists. split; [reflexivity|]. apply set_length.
Qed.

Lemma rotate_to_first_length (v : list A) (i : nat) (val : A) :
  i < List.length v ->
  List.length (GnuSort.rotate_to_first v 0 i val) = List.length v.
Proof.
  intros Hlt. unfold GnuSort.rotate_to_first.
  change (firstn 0 v) with (@nil A). change (skipn 0 v) with v.
  cbn [app List.length]. rewrite length_app, length_firstn, length_skipn.
  lia.
Qed.

Lemma insertion_loop_some (count : nat) :
  forall (v : list A) (i : nat),
    0 < i -> i + count = List.length v ->
    exists v', GnuSort.insertion_loop comp count v 0 i = Some v'.
Proof.
  induction count as [|n IH]; intros v i Hpos Hlen.
  - eexists. reflexivity.
  - cbn [GnuSort.insertion_loop]. unfold GnuSort.bind.
    destruct (GnuSort.get v i) as [xi|] eqn:Ei.
    2:{ apply nth_error_None in Ei. lia. }
    destruct (GnuSort.get v 0) as [xf|] eqn:Ef.
    2:{ apply nth_error_None in Ef. lia. }
    destruct (comp xi xf) eqn:Ec.
    + apply IH; [lia|]. rewrite rotate_to_first_length; lia.
    + unfold GnuSort.unguarded_linear_insert, GnuSort.bind. rewrite Ei.
      destruct (linear_insert_loop_some xi i v xf ltac:(lia) Hpos Ef Ec)
        as (v1 & -> & Hlen1).
      apply IH; [lia|]. rewrite Hlen1. lia.
Qed.

Lemma gnu_sort_small (v : list A) :
  List.length v <= GnuSort._S_threshold ->
  exists v', GnuSort.sort comp v = Some v'.
Proof.
  intros Hle. unfold GnuSort.sort, GnuSort.bind.
  destruct (Nat.eqb (List.length v) 0) eqn:E0; [now exists v|].
  apply Nat.eqb_neq in E0.
  assert (Hth : Nat.ltb GnuSort._S_threshold (List.length v - 0) = false).
  { apply Nat.ltb_ge. lia. }
  assert (Hintro : GnuSort.introsort_loop comp
                     (Nat.log2 (List.length v) * 2) v 0 (List.length v)
                   = Some v).
  { destruct (Nat.log2 (List.length v) * 2);
      cbn [GnuSort.introsort_loop]; now rewrite Hth. }
  rewrite Hintro. unfold GnuSort.final_insertion_sort. rewrite Hth.
  unfold GnuSort.insertion_sort.
  destruct (Nat.eqb 0 (List.length v)) eqn:E1; [now exists v|].
  apply insertion_loop_some; lia.
Qed.

End GnuSortPermutes.

(** *** Strict weak orderings can be checked *)

Lemma strict_weak_check_spec {A : Type} (comp : A -> A -> bool)
    (l : list A) :
  strict_weak_check comp l = true <-> strict_weak_on comp l.
Proof.
  unfold strict_weak_check. rewrite andb_true_iff, !forallb_forall. split.
  - intros [Hirr Hall]. constructor.
    + intros a Ha. specialize (Hirr a Ha). now apply negb_true_iff in Hirr.
    + intros a b c Ha Hb Hc Hab Hbc. specialize (Hall a Ha).
      rewrite forallb_forall in Hall. specialize (Hall b Hb).
      rewrite forallb_forall in Hall. specialize (Hall c Hc).
      apply andb_true_iff in Hall. destruct Hall as [H _].
      now rewrite Hab, Hbc in H.
    + intros a b c Ha Hb Hc Hab Hbc. specialize (Hall a Ha).
      rewrite forallb_forall in Hall. specialize (Hall b Hb).
      rewrite forallb_forall in Hall. specialize (Hall c Hc).
      apply andb_true_iff in Hall. destruct Hall as [_ H].
      now rewrite Hab, Hbc in H.
  - intros [Hirr Htr Heq]. split.
    + intros a Ha. now rewrite (Hirr a Ha).
    + intros a Ha. apply forallb_forall. intros b Hb.
      apply forallb_forall. intros c Hc. apply andb_true_iff. split.
      * destruct (comp a b) eqn:Eab; [|reflexivity].
        destruct (comp b c) eqn:Ebc; [|reflexivity].
        now rewrite (Htr a b c Ha Hb Hc Eab Ebc).
      * destruct (equiv comp a b) eqn:Eab; [|reflexivity].
        destruct (equiv comp b c) eqn:Ebc; [|reflexivity].
        now rewrite (Heq a b c Ha Hb Hc Eab Ebc).
Qed.

(** The comparison of ratings fails to be a strict weak ordering only
    where some rating reads as a NaN. *)
Lemma not_strict_weak_nan (movies : list Movie) :
  ~ strict_weak_on by_rating movies ->
  Exists (fun m => has_nan_rating m = true) movies.
Proof.
  intros Hn.
  destruct (Exists_dec (fun m => has_nan_rating m = true) movies) as [H|H].
  { intros m. destruct (has_nan_rating m); [now left|now right]. }
  { exact H. }
  exfalso. apply Hn. apply by_rating_strict_weak.
  apply Forall_forall. intros m Hm. unfold has_nan_rating in H.
  destruct (is_nan (rating_value m)) eqn:E; [|reflexivity].
  exfalso. apply H. apply Exists_exists. now exists m.
Qed.

(** The ordering step has an outcome on every input. *)
Lemma ordering_step_exists (sortChoice : string) (movies : list Movie) :
  exists o, ordering_step sortChoice movies o.
Proof.
  destruct (string_dec sortChoice "4") as [E4|N4].
  - destruct (strict_weak_check by_rating movies) eqn:Ec.
    + apply strict_weak_check_spec in Ec.
      exists (Ordered (isort by_rating movies)). apply ordering_defined.
      apply sort_highest_rated; [exact E4|exact Ec|].
      now apply std_sort_post_exists.
    + exists Undefined. apply ordering_undefined; [exact E4|].
      intros H. apply strict_weak_check_spec in H. congruence.
  - destruct (sort_step_exists sortChoice movies) as [after H];
      [congruence|].
    exists (Ordered after). now apply ordering_defined.
Qed.

Lemma gnu_ordering_step_perm (sortChoice : string)
    (movies after : list Movie) :
  gnu_ordering_step sortChoice movies = Some after ->
  Permutation movies after.
Proof.
  unfold gnu_ordering_step.
  destruct (String.eqb sortChoice "2").
  { intros [= <-]. apply Permutation_rev. }
  destruct (String.eqb sortChoice "3"); [apply gnu_sort_perm|].
  destruct (String.eqb sortChoice "4"); [apply gnu_sort_perm|].
  intros [= <-]. reflexivity.
Qed.

Lemma gnu_ordering_step_small (sortChoice : string) (movies : list Movie) :
  List.length movies <= 16 ->
  exists after, gnu_ordering_step sortChoice movies = Some after.
Proof.
  intros Hle. unfold gnu_ordering_step.
  destruct (String.eqb sortChoice "2"); [eexists; reflexivity|].
  destruct (String.eqb sortChoice "3"); [now apply gnu_sort_small|].
  destruct (String.eqb sortChoice "4"); [now apply gnu_sort_small|].
  eexists; reflexivity.
Qed.

(** A collection already in display order may be left as it is. *)
Lemma sorted_is_outcome (comp : Movie -> Movie -> bool)
    (movies : list Movie) :
  sorted_by comp movies -> std_sort_post comp movies movies.
Proof. intros H. split; [reflexivity|exact H]. Qed.




(* ================================================================== *)
(** * Part III. Further properties of the code                          *)
(* ================================================================== *)

(** ** [trim] *)

Lemma substring_0_all (s : string) :
  String.substring 0 (String.length s) s = s.
Proof. induction s as [|c s IH]; cbn; [reflexivity|now rewrite IH]. Qed.

Lemma substring_0_app (s t : string) :
  String.substring 0 (String.length s) (s ++ t) = s.
Proof.
  induction s as [|c s IH]; cbn.
  - destruct t; reflexivity.
  - now rewrite IH.
Qed.

Lemma substring_skip (p t : string) (n : nat) :
  String.substring (String.length p) n (p ++ t) = String.substring 0 n t.
Proof. induction p as [|c p IH]; cbn; [reflexivity|exact IH]. Qed.

Lemma string_app_assoc (a b c : string) : (a ++ b) ++ c = a ++ b ++ c.
Proof. induction a as [|x a IH]; cbn; [reflexivity|now rewrite IH]. Qed.

Lemma string_length_app (a b : string) :
  String.length (a ++ b) = String.length a + String.length b.
Proof. induction a as [|x a IH]; cbn; [reflexivity|now rewrite IH]. Qed.

(** What [find_first_not_of] finds: the characters before the position
    are all in the set, the one at the position is not. *)
Lemma find_first_not_of_split (set s : string) (i : nat) :
  find_first_not_of s set = Some i ->
  exists p c t,
    s = p ++ String c t /\ String.length p = i /\
    all_in set p = true /\ mem c set = false.
Proof.
  revert i. induction s as [|d s IH]; intros i H; cbn in H; [discriminate|].
  destruct (mem d set) eqn:Hd.
  - destruct (find_first_not_of s set) as [j|]; [|discriminate].
    injection H as <-.
    destruct (IH j eq_refl) as (p & c & t & -> & Hlen & Hp & Hc).
    exists (String d p), c, t. cbn. rewrite Hd, Hp, Hlen. auto.
  - injection H as <-. exists "", d, s. cbn. auto.
Qed.

Lemma find_first_not_of_none (set s : string) :
  find_first_not_of s set = None -> all_in set s = true.
Proof.
  induction s as [|d s IH]; cbn; [reflexivity|].
  destruct (mem d set); [|discriminate].
  destruct (find_first_not_of s set); [discriminate|].
  intros _. now apply IH.
Qed.

Lemma find_last_not_of_all_in (set s : string) :
  all_in set s = true -> find_last_not_of s set = None.
Proof.
  induction s as [|d s IH]; cbn; [reflexivity|].
  intros H. apply andb_true_iff in H. destruct H as [Hd Hs].
  now rewrite (IH Hs), Hd.
Qed.

(** What [find_last_not_of] finds. *)
Lemma find_last_not_of_split (set s : string) (j : nat) :
  find_last_not_of s set = Some j ->
  exists m c q,
    s = m ++ String c q /\ String.length m = j /\
    all_in set q = true /\ mem c set = false.
Proof.
  revert j. induction s as [|d s IH]; intros j H; cbn in H; [discriminate|].
  destruct (find_last_not_of s set) as [k|] eqn:E.
  - injection H as <-.
    destruct (IH k eq_refl) as (m & c & q & -> & Hlen & Hq & Hc).
    exists (String d m), c, q. cbn. rewrite Hlen. auto.
  - destruct (mem d set) eqn:Hd; [discriminate|]. injection H as <-.
    exists "", d, s. split; [reflexivity|]. split; [reflexivity|].
    split; [|assumption]. clear IH Hd. induction s as [|e s IHs]; [reflexivity|].
    cbn in E. destruct (find_last_not_of s set); [discriminate|].
    destruct (mem e set) eqn:He; [|discriminate].
    cbn. rewrite He. now apply IHs.
Qed.

Lemma find_last_not_of_app (set p t : string) (j : nat) :
  find_last_not_of t set = Some j ->
  find_last_not_of (p ++ t) set = Some (String.length p + j).
Proof.
  intros H. induction p as [|d p IH]; cbn; [exact H|]. now rewrite IH.
Qed.

Lemma find_last_not_of_clean (set m : string) (c : ascii) (q : string) :
  mem c set = false -> all_in set q = true ->
  find_last_not_of (m ++ String c q) set = Some (String.length m).
Proof.
  intros Hc Hq.
  rewrite (find_last_not_of_app set m (String c q) 0); [f_equal; lia|].
  cbn. now rewrite (find_last_not_of_all_in set q Hq), Hc.
Qed.

Lemma last_char_app (m : string) (c : ascii) :
  last_char (m ++ String c "") = Some c.
Proof.
  induction m as [|d m IH]; [reflexivity|].
  cbn [append last_char]. rewrite IH.
  destruct (m ++ String c ""); [discriminate IH|reflexivity].
Qed.

Lemma first_char_app (s t : string) (c : ascii) :
  first_char s = Some c -> first_char (s ++ t) = Some c.
Proof. destruct s; [discriminate|]. cbn. auto. Qed.

(** The structure of a trimmed string. *)
Lemma trim_shape (s : string) :
  (trim s = "" /\ all_in trim_set s = true) \/
  exists p a mid b q,
    (trim s = String a "" /\ s = p ++ String a q \/
     trim s = String a (mid ++ String b "") /\
     s = p ++ String a (mid ++ String b q) /\ mem b trim_set = false) /\
    all_in trim_set p = true /\ all_in trim_set q = true /\
    mem a trim_set = false.
Proof.
  unfold trim.
  destruct (find_first_not_of s trim_set) as [i|] eqn:Hf.
  2: { left. split; [reflexivity|]. now apply find_first_not_of_none. }
  right.
  destruct (find_first_not_of_split _ _ _ Hf) as (p & a & t & -> & <- & Hp & Ha).
  destruct (find_last_not_of (String a t) trim_set) as [j|] eqn:Hl.
  2: { cbn [find_last_not_of] in Hl. rewrite Ha in Hl.
       destruct (find_last_not_of t trim_set); discriminate. }
  rewrite (find_last_not_of_app trim_set p _ j Hl).
  destruct (find_last_not_of_split _ _ _ Hl) as (m & b & q & Hs & <- & Hq & Hb).
  replace (String.length p + String.length m - String.length p + 1)
    with (S (String.length m)) by lia.
  unfold substr. rewrite substring_skip.
  destruct m as [|x m].
  - cbn in Hs. injection Hs as -> ->.
    exists p, b, "", b, q. split; [left; split; [|reflexivity]|auto].
    cbn. destruct q; reflexivity.
  - cbn in Hs. injection Hs as -> ->.
    exists p, x, m, b, q. split; [right|auto].
    split; [|split; [|exact Hb]].
    + cbn [String.length String.substring]. f_equal.
      replace (S (String.length m))
        with (String.length (m ++ String b "")).
      * replace (m ++ String b q) with ((m ++ String b "") ++ q)
          by (now rewrite string_app_assoc).
        apply substring_0_app.
      * rewrite string_length_app. cbn. lia.
    + reflexivity.
Qed.

Lemma last_char_skip (u : string) (c : ascii) (q : string) :
  last_char (u ++ String c q) = last_char (String c q).
Proof.
  induction u as [|d u IH]; [reflexivity|].
  cbn [append]. rewrite <- IH. cbn [last_char].
  destruct (u ++ String c q) eqn:E; [|reflexivity].
  destruct u; discriminate E.
Qed.

Lemma last_char_all_in (set q : string) (b : ascii) :
  all_in set q = true -> last_char q = Some b -> mem b set = true.
Proof.
  induction q as [|d q IH]; [discriminate|].
  cbn [all_in]. intros H Hl. apply andb_true_iff in H. destruct H as [Hd Hq].
  destruct q as [|e q]; [cbn in Hl; congruence|].
  apply IH; assumption.
Qed.

Lemma last_char_some (c : ascii) (u : string) :
  exists z, last_char (String c u) = Some z.
Proof.
  revert c. induction u as [|d u IH]; intros c; [now exists c|].
  destruct (IH d) as (z & Hz). exists z. exact Hz.
Qed.

Lemma trim_clean (s : string) : clean_ends (trim s) = true.
Proof.
  destruct (trim_shape s)
    as [[Ht Hs]|(p & a & mid & b & q & Hcase & Hp & Hq & Ha)].
  - now rewrite Ht.
  - destruct Hcase as [[Ht _]|(Ht & _ & Hb)]; rewrite Ht.
    + unfold clean_ends. cbn [first_char last_char]. now rewrite Ha.
    + unfold clean_ends. cbn [first_char].
      change (String a (mid ++ String b ""))
        with (String a mid ++ String b "").
      rewrite last_char_app. now rewrite Ha, Hb.
Qed.

(** X1.  [trim] only removes characters from the two ends: the string is
    the trimmed string between a prefix and a suffix made of white space
    and quotes, and the trimmed string, unless empty, begins and ends
    with a character that is neither. *)
Theorem trim_decompose (s : string) :
  exists p q,
    s = p ++ trim s ++ q /\
    all_in trim_set p = true /\ all_in trim_set q = true /\
    clean_ends (trim s) = true.
Proof.
  destruct (trim_shape s)
    as [[Ht Hs]|(p & a & mid & b & q & Hcase & Hp & Hq & Ha)].
  - exists s, "". rewrite Ht. cbn [append]. rewrite string_append_nil_r.
    auto.
  - exists p, q.
    destruct Hcase as [[Ht ->]|(Ht & -> & Hb)]; rewrite Ht.
    + split; [reflexivity|]. split; [exact Hp|]. split; [exact Hq|].
      unfold clean_ends. cbn [first_char last_char]. now rewrite Ha.
    + split; [cbn; now rewrite string_app_assoc|].
      split; [exact Hp|]. split; [exact Hq|].
      unfold clean_ends. cbn [first_char].
      change (String a (mid ++ String b ""))
        with (String a mid ++ String b "").
      rewrite last_char_app. now rewrite Ha, Hb.
Qed.

Lemma trim_of_clean (u : string) : clean_ends u = true -> trim u = u.
Proof.
  intros Hu.
  destruct (trim_shape u)
    as [[Ht Hs]|(p & a & mid & b & q & Hcase & Hp & Hq & Ha)].
  - destruct u as [|c u]; [reflexivity|]. exfalso.
    unfold clean_ends in Hu. cbn [first_char all_in] in Hu, Hs.
    apply andb_true_iff in Hs. destruct Hs as [Hc _].
    destruct (last_char_some c u) as (z & Hz). rewrite Hz in Hu.
    rewrite Hc in Hu. discriminate.
  - assert (Hpe : p = "").
    { destruct p as [|x p]; [reflexivity|exfalso].
      cbn [all_in] in Hp. apply andb_true_iff in Hp. destruct Hp as [Hx _].
      assert (Hu' : exists r, u = String x r).
      { destruct Hcase as [[_ ->]|(_ & -> & _)]; eexists; reflexivity. }
      destruct Hu' as (r & ->). unfold clean_ends in Hu.
      cbn [first_char] in Hu.
      destruct (last_char_some x r) as (z & Hz). rewrite Hz, Hx in Hu.
      discriminate. }
    subst p. cbn [append] in Hcase.
    assert (Hqe : q = "").
    { destruct q as [|x q]; [reflexivity|exfalso].
      assert (Hl : exists z, last_char u = Some z /\ mem z trim_set = true).
      { destruct (last_char_some x q) as (z & Ez).
        exists z. split; [|exact (last_char_all_in _ _ _ Hq Ez)].
        destruct Hcase as [[_ ->]|(_ & -> & _)].
        - rewrite <- Ez.
          exact (last_char_skip (String a "") x q).
        - rewrite <- Ez.
          replace (String a (mid ++ String b (String x q)))
            with ((String a mid ++ String b "") ++ String x q)
            by (cbn; now rewrite string_app_assoc).
          apply last_char_skip. }
      destruct Hl as (z & Hz & Hm). unfold clean_ends in Hu.
      rewrite Hz in Hu. destruct (first_char u) eqn:Ef.
      - rewrite Hm, andb_false_r in Hu. discriminate.
      - destruct u; discriminate. }
    subst q. destruct Hcase as [[Ht ->]|(Ht & -> & _)]; exact Ht.
Qed.

Lemma trim_idem (s : string) : trim (trim s) = trim s.
Proof. apply trim_of_clean, trim_clean. Qed.

(** X2.  [trim] leaves a string as it is exactly when the string is empty
    or begins and ends with a character that [trim] does not remove; in
    particular trimming twice is trimming once. *)
Theorem trim_fixpoint (s : string) :
  (trim s = s <-> clean_ends s = true) /\ trim (trim s) = trim s.
Proof.
  split; [split|].
  - intros H. rewrite <- H. apply trim_clean.
  - apply trim_of_clean.
  - apply trim_idem.
Qed.

(** ** [parseCSVLine] *)

Section ParserFacts.

Local Open Scope list_scope.

Lemma parse_loop_app (a b : string) :
  forall st, parse_loop (a ++ b)%string st = parse_loop b (parse_loop a st).
Proof. induction a as [|c a IH]; intros st; cbn; [reflexivity|apply IH]. Qed.

(** Every quote toggles the state, whatever else the line holds. *)
Lemma parse_loop_inQuotes (a : string) :
  forall st,
    ps_inQuotes (parse_loop a st)
    = xorb (ps_inQuotes st) (Nat.odd (count_char quote a)).
Proof.
  induction a as [|c a IH]; intros st; cbn [parse_loop count_char].
  - cbn. now rewrite xorb_false_r.
  - rewrite IH. unfold parse_step.
    destruct (Ascii.eqb c quote) eqn:Hq; cbn [ps_inQuotes].
    + cbn [Nat.add]. rewrite Nat.odd_succ, <- Nat.negb_odd.
      destruct (ps_inQuotes st), (Nat.odd (count_char quote a)); reflexivity.
    + destruct (Ascii.eqb c comma && negb (ps_inQuotes st)); reflexivity.
Qed.

(** Fields already finished play no part in the scan. *)
Lemma parse_loop_prefix (F : list string) (line : string) :
  forall fs f q,
    parse_loop line (mkParseState (F ++ fs) f q)
    = mkParseState (F ++ ps_fields (parse_loop line (mkParseState fs f q)))
        (ps_field (parse_loop line (mkParseState fs f q)))
        (ps_inQuotes (parse_loop line (mkParseState fs f q))).
Proof.
  induction line as [|c line IH]; intros fs f q; cbn [parse_loop].
  - reflexivity.
  - unfold parse_step; cbn [ps_fields ps_field ps_inQuotes].
    destruct (Ascii.eqb c quote); [apply IH|].
    destruct (Ascii.eqb c comma && negb q); [|apply IH].
    rewrite <- app_assoc. apply IH.
Qed.

(** Inside quotes everything but a quote is text, commas included. *)
Lemma parse_loop_text (s : string) :
  mem quote s = false ->
  forall fs f,
    parse_loop s (mkParseState fs f true) = mkParseState fs (f ++ s)%string true.
Proof.
  induction s as [|c s IH]; intros Hs fs f; cbn [parse_loop].
  - now rewrite string_append_nil_r.
  - cbn [mem] in Hs. apply orb_false_iff in Hs. destruct Hs as [Hc Hs].
    unfold parse_step. rewrite (Ascii.eqb_sym c quote), Hc.
    cbn [ps_inQuotes negb]. rewrite andb_false_r.
    cbn [ps_fields ps_field]. rewrite (IH Hs). f_equal.
    unfold push_char, str1. now rewrite string_app_assoc.
Qed.

Lemma parse_loop_quoted (f : string) (fs : list string) :
  mem quote f = false ->
  parse_loop (quoted f) (mkParseState fs "" false) = mkParseState fs f false.
Proof.
  intros Hf. unfold quoted, dq, str1. cbn [append parse_loop].
  unfold parse_step at 1. rewrite Ascii.eqb_refl.
  cbn [ps_fields ps_field ps_inQuotes negb].
  rewrite parse_loop_app, (parse_loop_text f Hf). cbn [append parse_loop].
  unfold parse_step. rewrite Ascii.eqb_refl. reflexivity.
Qed.

(** A comma met outside quotes splits the line in two lines. *)
Lemma parse_after_comma (a b : string) :
  ps_inQuotes (parse_loop a parse_init) = false ->
  parseCSVLine (a ++ str1 comma ++ b)%string
  = parseCSVLine a ++ parseCSVLine b.
Proof.
  intros Hq. unfold parseCSVLine. rewrite parse_loop_app.
  destruct (parse_loop a parse_init) as [fs f q].
  cbn [ps_inQuotes] in Hq. subst q.
  assert (E : parse_loop (str1 comma ++ b)%string (mkParseState fs f false)
              = mkParseState
                  ((fs ++ [trim f]) ++ ps_fields (parse_loop b parse_init))
                  (ps_field (parse_loop b parse_init))
                  (ps_inQuotes (parse_loop b parse_init))).
  { unfold str1. cbn [append parse_loop]. unfold parse_step at 1.
    cbn [ps_fields ps_field ps_inQuotes negb].
    change (Ascii.eqb comma quote) with false. rewrite Ascii.eqb_refl.
    cbn [andb].
    pose proof (parse_loop_prefix (fs ++ [trim f]) b [] "" false) as P.
    rewrite app_nil_r in P. exact P. }
  rewrite E. cbn [ps_fields ps_field]. now rewrite <- !app_assoc.
Qed.

Lemma parse_loop_trimmed (line : string) :
  forall st,
    Forall (fun f => trim f = f) (ps_fields st) ->
    Forall (fun f => trim f = f) (ps_fields (parse_loop line st)).
Proof.
  induction line as [|c line IH]; intros st H; cbn [parse_loop]; [exact H|].
  apply IH. unfold parse_step.
  destruct (Ascii.eqb c quote); [exact H|].
  destruct (Ascii.eqb c comma && negb (ps_inQuotes st)); [|exact H].
  cbn [ps_fields]. apply Forall_app. split; [exact H|].
  constructor; [|constructor]. apply trim_idem.
Qed.

Lemma parse_loop_count (line : string) :
  forall st,
    List.length (ps_fields (parse_loop line st))
    <= List.length (ps_fields st) + count_char comma line /\
    List.length (ps_fields st) <= List.length (ps_fields (parse_loop line st)) /\
    (mem quote line = false -> ps_inQuotes st = false ->
     List.length (ps_fields (parse_loop line st))
     = List.length (ps_fields st) + count_char comma line).
Proof.
  induction line as [|c line IH]; intros st; cbn [parse_loop count_char mem].
  - split; [lia|]. split; [lia|]. intros _ _. lia.
  - destruct (IH (parse_step st c)) as (Hle & Hge & Heq).
    unfold parse_step in *.
    destruct (Ascii.eqb c quote) eqn:Hq.
    + assert (Hc : Ascii.eqb c comma = false).
      { apply Ascii.eqb_eq in Hq. subst c. reflexivity. }
      rewrite Hc. cbn [ps_fields ps_inQuotes] in *.
      split; [lia|]. split; [lia|].
      rewrite (Ascii.eqb_sym quote c), Hq. cbn. discriminate.
    + destruct (Ascii.eqb c comma) eqn:Hc; cbn [andb] in *.
      * destruct (ps_inQuotes st) eqn:Hst;
          cbn [andb negb ps_fields ps_inQuotes] in *.
        -- split; [lia|]. split; [lia|]. intros _ Hf. discriminate.
        -- rewrite length_app in *. cbn [List.length] in *.
           split; [lia|]. split; [lia|].
           rewrite (Ascii.eqb_sym quote c), Hq. cbn [orb].
           intros Hm _. rewrite (Heq Hm eq_refl). lia.
      * cbn [ps_fields ps_inQuotes] in *. split; [lia|]. split; [lia|].
        rewrite (Ascii.eqb_sym quote c), Hq. cbn [orb].
        intros Hm Hs. rewrite (Heq Hm Hs). lia.
Qed.

End ParserFacts.

(** X3.  Every field [parseCSVLine] returns is trimmed: trimming it again
    changes nothing, so no field begins or ends with white space or a
    quote. *)
Theorem parseCSVLine_trimmed (line f : string) :
  In f (parseCSVLine line) -> trim f = f /\ clean_ends f = true.
Proof.
  intros Hin.
  assert (Ht : trim f = f).
  { unfold parseCSVLine in Hin. apply in_app_or in Hin.
    destruct Hin as [Hin|[<-|[]]]; [|apply trim_idem].
    pose proof (parse_loop_trimmed line parse_init (Forall_nil _)) as H.
    rewrite Forall_forall in H. now apply H. }
  split; [exact Ht|]. rewrite <- Ht. apply trim_clean.
Qed.

Lemma parseCSVLine_trimmed_witness :
  In "b c" (parseCSVLine "a,  b c ,d") /\ trim "b c" = "b c".
Proof.
  assert (H : In "b c" (parseCSVLine "a,  b c ,d"))
    by (cbn; right; left; reflexivity).
  split; [exact H|]. exact (proj1 (parseCSVLine_trimmed _ _ H)).
Defined.

(** X4.  A line yields one field at least and at most one more than it
    has commas; a line without quotes yields exactly one more field than
    it has commas. *)
Theorem parseCSVLine_field_count (line : string) :
  1 <= List.length (parseCSVLine line)
       <= 1 + count_char comma line /\
  (mem quote line = false ->
   List.length (parseCSVLine line) = 1 + count_char comma line).
Proof.
  unfold parseCSVLine. rewrite length_app. cbn [List.length].
  destruct (parse_loop_count line parse_init) as (Hle & Hge & Heq).
  cbn [parse_init ps_fields ps_inQuotes List.length] in *.
  split; [lia|]. intros Hm. rewrite (Heq Hm eq_refl). lia.
Qed.

Lemma parseCSVLine_field_count_witness :
  mem quote "2024-01-01,Heat,1995" = false /\
  List.length (parseCSVLine "2024-01-01,Heat,1995") = 3.
Proof.
  assert (H : mem quote "2024-01-01,Heat,1995" = false) by reflexivity.
  split; [exact H|].
  exact (proj2 (parseCSVLine_field_count "2024-01-01,Heat,1995") H).
Defined.

(** X5.  A comma that follows an even number of quotes separates: the
    fields of the line are those of what is before it followed by those
    of what is after it. *)
Theorem parseCSVLine_split (a b : string) :
  Nat.even (count_char quote a) = true ->
  parseCSVLine (a ++ str1 comma ++ b)
  = (parseCSVLine a ++ parseCSVLine b)%list.
Proof.
  intros He. apply parse_after_comma.
  rewrite parse_loop_inQuotes. cbn [parse_init ps_inQuotes xorb].
  rewrite <- Nat.negb_even, He. reflexivity.
Qed.

Lemma parseCSVLine_split_witness :
  Nat.even (count_char quote (quoted "Movie, The")) = true /\
  parseCSVLine (quoted "Movie, The" ++ str1 comma ++ "2023")
  = (parseCSVLine (quoted "Movie, The") ++ parseCSVLine "2023")%list.
Proof.
  assert (H : Nat.even (count_char quote (quoted "Movie, The")) = true)
    by reflexivity.
  split; [exact H|]. exact (parseCSVLine_split _ "2023" H).
Defined.

(** X6.  A quote that is never closed swallows the rest of the line: all
    that follows it, commas included, is one field. *)
Theorem parseCSVLine_open_quote (a s : string) :
  Nat.even (count_char quote a) = true ->
  mem quote s = false ->
  parseCSVLine (a ++ str1 comma ++ dq ++ s)
  = (parseCSVLine a ++ [trim s])%list.
Proof.
  intros He Hs. rewrite parse_after_comma.
  - f_equal.
    assert (E : parse_loop (dq ++ s) parse_init = mkParseState [] s true).
    { unfold dq, str1. cbn [append parse_loop]. unfold parse_step.
      rewrite Ascii.eqb_refl.
      cbn [parse_init ps_fields ps_field ps_inQuotes negb].
      exact (parse_loop_text s Hs [] ""). }
    unfold parseCSVLine. rewrite E. reflexivity.
  - rewrite parse_loop_inQuotes. cbn [parse_init ps_inQuotes xorb].
    rewrite <- Nat.negb_even, He. reflexivity.
Qed.

Lemma parseCSVLine_open_quote_witness :
  Nat.even (count_char quote "2024-01-01") = true /\
  mem quote "Heat,1995,,4" = false /\
  parseCSVLine ("2024-01-01" ++ str1 comma ++ dq ++ "Heat,1995,,4")
  = ["2024-01-01"; "Heat,1995,,4"].
Proof.
  assert (H1 : Nat.even (count_char quote "2024-01-01") = true)
    by reflexivity.
  assert (H2 : mem quote "Heat,1995,,4" = false) by reflexivity.
  split; [exact H1|]. split; [exact H2|].
  exact (parseCSVLine_open_quote "2024-01-01" "Heat,1995,,4" H1 H2).
Defined.

Lemma csv_join_cons (f g : string) (rest : list string) :
  csv_join (f :: g :: rest) = f ++ str1 comma ++ csv_join (g :: rest).
Proof. reflexivity. Qed.

Lemma parseCSVLine_csv_line (fields : list string) :
  fields <> [] ->
  Forall (fun f => mem quote f = false /\ trim f = f) fields ->
  parseCSVLine (csv_line fields) = fields.
Proof.
  intros Hne HF. induction HF as [|f rest [Hq Ht] HF IH]; [congruence|].
  assert (H1 : parse_loop (quoted f) parse_init = mkParseState [] f false)
    by (now apply parse_loop_quoted).
  destruct rest as [|g rest].
  - unfold csv_line. cbn [map csv_join]. unfold parseCSVLine.
    rewrite H1. cbn. now rewrite Ht.
  - unfold csv_line. cbn [map]. rewrite csv_join_cons.
    rewrite parse_after_comma by (now rewrite H1).
    change (csv_join (quoted g :: map quoted rest))
      with (csv_line (g :: rest)).
    rewrite IH by discriminate.
    unfold parseCSVLine. rewrite H1. cbn. now rewrite Ht.
Qed.

(** X7.  Writing fields between quotes and joining them with commas is
    undone by [parseCSVLine]: the fields come back as they were, commas
    in them included, provided they hold no quote and are already
    trimmed. *)
Theorem parseCSVLine_round_trip (fields : list string) :
  fields <> [] ->
  Forall (fun f => mem quote f = false /\ trim f = f) fields ->
  parseCSVLine (csv_line fields) = fields.
Proof. exact (parseCSVLine_csv_line fields). Qed.

Lemma parseCSVLine_round_trip_witness :
  ["2024-01-01"; "Movie, The"; ""; "4.5"] <> [] /\
  parseCSVLine (csv_line ["2024-01-01"; "Movie, The"; ""; "4.5"])
  = ["2024-01-01"; "Movie, The"; ""; "4.5"].
Proof.
  assert (H : ["2024-01-01"; "Movie, The"; ""; "4.5"] <> [])
    by discriminate.
  split; [exact H|].
  apply (parseCSVLine_round_trip _ H).
  repeat (constructor; [split; reflexivity|]). constructor.
Defined.

(** ** Reading files *)

Lemma getlines_from_line (l rest : string) :
  mem lf l = false ->
  forall acc,
    getlines_from (l ++ nl ++ rest) acc
    = (acc ++ l) :: getlines_from rest "".
Proof.
  induction l as [|c l IH]; intros Hl acc.
  - cbn. now rewrite string_append_nil_r.
  - cbn [mem] in Hl. apply orb_false_iff in Hl. destruct Hl as [Hc Hl].
    cbn [append getlines_from]. rewrite (Ascii.eqb_sym c lf), Hc.
    rewrite (IH Hl). unfold push_char, str1.
    now rewrite string_app_assoc.
Qed.

Lemma getlines_unlines (lines : list string) :
  Forall (fun l => mem lf l = false) lines ->
  getlines (unlines lines) = lines.
Proof.
  unfold getlines. induction 1 as [|l lines Hl _ IH]; [reflexivity|].
  cbn [unlines]. rewrite (getlines_from_line l _ Hl). cbn [append].
  now rewrite IH.
Qed.

Lemma mem_quoted (c : ascii) (f : string) :
  Ascii.eqb c quote = false -> mem c (quoted f) = mem c f.
Proof.
  intros Hc. unfold quoted, dq, str1. rewrite !mem_append. cbn [mem].
  rewrite Hc. cbn [orb]. now rewrite !orb_false_r.
Qed.

Lemma mem_csv_line (c : ascii) (fields : list string) :
  Ascii.eqb c quote = false -> Ascii.eqb c comma = false ->
  Forall (fun f => mem c f = false) fields ->
  mem c (csv_line fields) = false.
Proof.
  intros Hq Hc HF. unfold csv_line.
  induction HF as [|f rest Hf HF IH]; [reflexivity|].
  destruct rest as [|g rest].
  - cbn [map csv_join]. now rewrite mem_quoted.
  - cbn [map]. rewrite csv_join_cons, !mem_append, mem_quoted, Hf by exact Hq.
    cbn [map] in IH. rewrite IH. unfold str1. cbn [mem]. now rewrite Hc.
Qed.

Lemma csv_line_ends_with_quote (fields : list string) :
  fields <> [] -> exists x, csv_line fields = x ++ dq.
Proof.
  unfold csv_line. induction fields as [|f rest IH]; [congruence|].
  intros _. destruct rest as [|g rest].
  - exists (dq ++ f). cbn [map csv_join]. unfold quoted.
    now rewrite string_app_assoc.
  - destruct IH as (x & Hx); [discriminate|].
    exists (quoted f ++ str1 comma ++ x).
    cbn [map] in *. rewrite csv_join_cons, Hx.
    now rewrite !string_app_assoc.
Qed.

Lemma strip_cr_quoted_line (x : string) : strip_cr (x ++ dq) = x ++ dq.
Proof. unfold strip_cr, dq, str1. now rewrite last_char_app. Qed.

Lemma csv_of_movie_line (m : Movie) :
  plain_movie m ->
  mem lf (csv_of_movie m) = false /\
  strip_cr (csv_of_movie m) = csv_of_movie m /\
  empty (csv_of_movie m) = false /\
  malformed (csv_of_movie m) = false /\
  record_of_line (csv_of_movie m) = m.
Proof.
  intros Hm. unfold plain_movie in Hm.
  assert (Hne : fields_of_movie m <> []) by discriminate.
  assert (Hp : parseCSVLine (csv_of_movie m) = fields_of_movie m).
  { apply parseCSVLine_csv_line; [exact Hne|].
    eapply Forall_impl; [|exact Hm]. intros f (Hq & _ & Ht). now split. }
  split.
  { apply mem_csv_line; try reflexivity.
    eapply Forall_impl; [|exact Hm]. intros f (_ & Hl & _). exact Hl. }
  destruct (csv_line_ends_with_quote _ Hne) as (x & Hx).
  unfold csv_of_movie at 1 2 3. rewrite Hx.
  split; [apply strip_cr_quoted_line|].
  split; [destruct x; reflexivity|].
  unfold malformed, record_of_line. rewrite Hp.
  split; [reflexivity|]. destruct m; reflexivity.
Qed.

Lemma reader_loop_csv (movies : list Movie) :
  Forall plain_movie movies ->
  map record_of_line
    (filter (fun l => negb (malformed l))
       (filter (fun l => negb (empty l))
          (map strip_cr (map csv_of_movie movies))))
  = movies.
Proof.
  induction 1 as [|m movies Hm _ IH]; [reflexivity|].
  destruct (csv_of_movie_line m Hm) as (_ & Hs & He & Hb & Hr).
  cbn [map filter]. rewrite Hs, He. cbn [negb filter].
  rewrite Hb. cbn [negb map]. now rewrite Hr, IH.
Qed.

(** X8.  Reading back a diary file gives the records that were written:
    for every header line and every sequence of records whose columns
    hold no quote, no line feed and no white space at either end, the
    reader returns exactly that sequence, in order, whatever commas the
    columns contain. *)
Theorem diary_round_trip (fs : FileSystem) (filename header : string)
    (movies : list Movie) :
  fs filename = Some (write_diary header movies) ->
  mem lf header = false ->
  Forall plain_movie movies ->
  rr_movies (readLetterboxdCSV fs filename) = movies.
Proof.
  intros Hfs Hh Hm. unfold readLetterboxdCSV. rewrite Hfs.
  cbn [rr_movies]. rewrite reader_loop_movies.
  unfold write_diary. rewrite getlines_unlines.
  - cbn [tl]. now apply reader_loop_csv.
  - constructor; [exact Hh|]. apply Forall_map.
    eapply Forall_impl; [|exact Hm].
    intros m H. exact (proj1 (csv_of_movie_line m H)).
Qed.

Lemma diary_round_trip_witness :
  one_file "diary.csv"
    (write_diary "Date,Name"
       [mkMovie "2024-01-01" "Movie, The" "2023" "" "4.5" "Yes" "a, b" ""])
    "diary.csv"
  = Some (write_diary "Date,Name"
       [mkMovie "2024-01-01" "Movie, The" "2023" "" "4.5" "Yes" "a, b" ""]) /\
  rr_movies
    (readLetterboxdCSV
       (one_file "diary.csv"
          (write_diary "Date,Name"
             [mkMovie "2024-01-01" "Movie, The" "2023" "" "4.5" "Yes"
                "a, b" ""]))
       "diary.csv")
  = [mkMovie "2024-01-01" "Movie, The" "2023" "" "4.5" "Yes" "a, b" ""].
Proof.
  split; [reflexivity|].
  apply (diary_round_trip _ _ "Date,Name"); [reflexivity|reflexivity|].
  constructor; [|constructor].
  unfold plain_movie, plain_field.
  repeat (constructor; [split; [|split]; reflexivity|]). constructor.
Defined.

(** *** Line endings *)

Lemma last_char_mem (s : string) (c : ascii) :
  last_char s = Some c -> mem c s = true.
Proof.
  induction s as [|d s IH]; [discriminate|].
  destruct s as [|e s].
  - cbn. intros [= ->]. now rewrite Ascii.eqb_refl.
  - intros H. specialize (IH H). cbn [mem] in *. rewrite IH.
    apply orb_true_r.
Qed.

Lemma strip_cr_app_cr (s : string) : strip_cr (s ++ str1 cr) = s.
Proof.
  unfold strip_cr, str1. rewrite last_char_app, Ascii.eqb_refl.
  unfold substr. rewrite string_length_app. cbn [String.length].
  replace (String.length s + 1 - 1) with (String.length s) by lia.
  apply substring_0_app.
Qed.

Lemma strip_cr_no_cr (s : string) : mem cr s = false -> strip_cr s = s.
Proof.
  intros Hs. unfold strip_cr.
  destruct (last_char s) as [c|] eqn:E; [|reflexivity].
  destruct (Ascii.eqb c cr) eqn:Ec; [|reflexivity].
  apply Ascii.eqb_eq in Ec. subst c.
  apply last_char_mem in E. congruence.
Qed.

Lemma getlines_from_crlf (content : string) :
  forall acc,
    mem cr content = false -> mem cr acc = false ->
    Forall2 (fun a b => strip_cr a = strip_cr b)
      (getlines_from (to_crlf content) acc) (getlines_from content acc).
Proof.
  induction content as [|c content IH]; intros acc Hc Ha.
  - cbn. destruct (empty acc); repeat constructor.
  - cbn [mem] in Hc. apply orb_false_iff in Hc. destruct Hc as [Hx Hc].
    cbn [to_crlf getlines_from].
    destruct (Ascii.eqb c lf) eqn:El.
    + cbn [getlines_from]. change (Ascii.eqb cr lf) with false.
      rewrite Ascii.eqb_refl. constructor.
      * unfold push_char. now rewrite strip_cr_app_cr, strip_cr_no_cr.
      * now apply IH.
    + cbn [getlines_from]. rewrite El. apply IH; [exact Hc|].
      unfold push_char, str1. rewrite mem_append, Ha. cbn [mem orb].
      now rewrite Hx.
Qed.

Lemma reader_step_strip (st : ReaderState) (a b : string) :
  strip_cr a = strip_cr b -> reader_step st a = reader_step st b.
Proof. intros H. unfold reader_step. now rewrite H. Qed.

Lemma reader_loop_strip (l1 l2 : list string) :
  Forall2 (fun a b => strip_cr a = strip_cr b) l1 l2 ->
  forall st, reader_loop l1 st = reader_loop l2 st.
Proof.
  induction 1 as [|a b l1 l2 Hab _ IH]; intros st; [reflexivity|].
  cbn [reader_loop fold_left]. rewrite (reader_step_strip st a b Hab).
  apply IH.
Qed.

(** X9.  Line endings do not matter: a file whose lines end with a
    carriage return and a line feed gives the same records and the same
    console output as the file with bare line feeds. *)
Theorem crlf_file_same_result (fs fs' : FileSystem)
    (filename content : string) :
  fs filename = Some content ->
  fs' filename = Some (to_crlf content) ->
  mem cr content = false ->
  readLetterboxdCSV fs' filename = readLetterboxdCSV fs filename.
Proof.
  intros Hfs Hfs' Hc. unfold readLetterboxdCSV. rewrite Hfs, Hfs'.
  unfold getlines.
  now rewrite (reader_loop_strip _ _ (getlines_from_crlf content "" Hc eq_refl)).
Qed.

Lemma crlf_file_same_result_witness :
  one_file "diary.csv" diary_one "diary.csv" = Some diary_one /\
  one_file "diary.csv" (to_crlf diary_one) "diary.csv"
  = Some (to_crlf diary_one) /\
  mem cr diary_one = false /\
  readLetterboxdCSV (one_file "diary.csv" (to_crlf diary_one)) "diary.csv"
  = readLetterboxdCSV (one_file "diary.csv" diary_one) "diary.csv".
Proof.
  assert (H1 : one_file "diary.csv" diary_one "diary.csv" = Some diary_one)
    by reflexivity.
  assert (H2 : one_file "diary.csv" (to_crlf diary_one) "diary.csv"
               = Some (to_crlf diary_one)) by reflexivity.
  assert (H3 : mem cr diary_one = false) by reflexivity.
  split; [exact H1|]. split; [exact H2|]. split; [exact H3|].
  exact (crlf_file_same_result _ _ _ _ H1 H2 H3).
Defined.

(** ** [main]: the path typed in *)

(** X10.  A path that begins with a quote loses that quote and its last
    character, whatever that character is: a path between two quotes
    comes out bare, a path with an opening quote only loses its last
    letter, and a lone quote gives the empty path.  A path that does not
    begin with a quote is left as it is. *)
Theorem unquote_path_cases :
  (forall (p : string) (c : ascii), unquote_path (dq ++ p ++ str1 c) = p) /\
  unquote_path dq = "" /\
  (forall f, first_char f <> Some quote -> unquote_path f = f).
Proof.
  split; [|split].
  - intros p c. unfold dq, str1. cbn [append unquote_path].
    rewrite Ascii.eqb_refl. unfold substr. cbn [String.length].
    rewrite string_length_app. cbn [String.length String.substring].
    replace (S (String.length p + 1) - 2) with (String.length p) by lia.
    apply substring_0_app.
  - reflexivity.
  - intros [|c f] H; [reflexivity|]. cbn [unquote_path].
    destruct (Ascii.eqb_spec c quote) as [->|_]; [|reflexivity].
    now contradiction H.
Qed.

Lemma unquote_path_cases_witness :
  first_char "diary.csv" <> Some quote /\
  unquote_path "diary.csv" = "diary.csv".
Proof.
  assert (H : first_char "diary.csv" <> Some quote) by discriminate.
  split; [exact H|].
  exact (proj2 (proj2 unquote_path_cases) "diary.csv" H).
Defined.

(** ** [main]: statistics and ordering *)

Lemma stats_step_rewatch (st : Stats) (m : Movie) :
  rewatchCount (stats_step st m)
  = (rewatchCount st + if counted_as_rewatch m then 1 else 0)%Z.
Proof.
  unfold stats_step, counted_as_rewatch.
  destruct (negb (empty (rewatch m)) && negb (String.eqb (rewatch m) "No"));
    destruct (negb (empty (rating m)));
    try destruct (gtb (safeStringToDouble (rating m)) zero);
    cbn [rewatchCount]; lia.
Qed.

Lemma statistics_rewatch_from (movies : list Movie) :
  forall st,
    rewatchCount (fold_left stats_step movies st)
    = (rewatchCount st
       + Z.of_nat (List.length (filter counted_as_rewatch movies)))%Z.
Proof.
  induction movies as [|m movies IH]; intros st; cbn [fold_left filter].
  - cbn. lia.
  - rewrite IH, stats_step_rewatch.
    destruct (counted_as_rewatch m); cbn [List.length]; lia.
Qed.

(** X11.  The rewatch count is the number of records whose rewatch column
    is neither empty nor the exact word No; it does not depend on the
    ratings, and the comparison is case sensitive. *)
Theorem statistics_rewatch (movies : list Movie) :
  rewatchCount (statistics movies)
  = Z.of_nat (List.length (filter counted_as_rewatch movies)) /\
  (forall m, counted_as_rewatch m = true <->
             rewatch m <> "" /\ rewatch m <> "No").
Proof.
  split.
  - unfold statistics. rewrite statistics_rewatch_from. cbn. lia.
  - intros m. unfold counted_as_rewatch.
    rewrite andb_true_iff, !negb_true_iff, String.eqb_neq.
    destruct (rewatch m); cbn [empty]; split; intros [H1 H2];
      (split; [congruence|assumption]).
Qed.

Lemma filter_length_perm {A : Type} (f : A -> bool) (l l' : list A) :
  Permutation l l' ->
  List.length (filter f l) = List.length (filter f l').
Proof.
  induction 1 as [|x l l' _ IH|x y l|l l' l'' _ IH1 _ IH2]; cbn [filter].
  - reflexivity.
  - destruct (f x); cbn [List.length]; now rewrite IH.
  - destruct (f x), (f y); reflexivity.
  - now rewrite IH1.
Qed.

Lemma report_counts_perm (movies after : list Movie) :
  Permutation movies after -> report_counts after = report_counts movies.
Proof.
  intros Hp. unfold report_counts, statistics.
  rewrite (proj1 (statistics_from after _)),
    (proj1 (statistics_from movies _)), !statistics_rewatch_from.
  rewrite (filter_length_perm counted_as_rated _ _ Hp).
  rewrite (filter_length_perm counted_as_rewatch _ _ Hp).
  now rewrite (Permutation_length Hp).
Qed.



(** ** [ratingToStars] and the statistics *)

Lemma string_app_not_empty (s : string) (c : ascii) (t : string) :
  s ++ String c t <> "".
Proof. destruct s; discriminate. Qed.

Lemma gtb_zero_not_eqb (x : double) :
  gtb x zero = true -> Double.eqb x zero = false.
Proof.
  unfold gtb, Double.eqb, SFltb, SFeqb, zero.
  destruct x as [s|s| |s m e]; cbn; try discriminate; try reflexivity;
    destruct s; cbn; try discriminate; reflexivity.
Qed.

(** What [ratingToStars] does with a rating that is not empty and does
    not convert to zero hangs on the cast to [int] alone. *)
Lemma ratingToStars_nonzero (rating0 : string) :
  rating0 <> "" -> Double.eqb (safeStringToDouble rating0) zero = false ->
  match to_int (safeStringToDouble rating0) with
  | Some _ =>
      exists stars,
        ratingToStars rating0 = Some (stars ++ " (" ++ rating0 ++ "/5)")
  | None => ratingToStars rating0 = None
  end.
Proof.
  intros Hne Hz. unfold ratingToStars.
  destruct rating0 as [|c r]; [congruence|]. cbn [empty]. rewrite Hz.
  destruct (to_int (safeStringToDouble (String c r))) as [n|];
    [|reflexivity].
  eexists. reflexivity.
Qed.

(** X13.  The rendering of a rating is the empty string exactly when the
    rating is empty or converts to zero.  It is undefined (the cast to
    [int] of line 174 is) exactly when the rating is not empty, converts
    to a value other than zero, and the integer part of that value does
    not fit an [int], or the value is an infinity or a NaN.  So a record
    the statistics count as rated is rendered, when the cast of its
    rating is defined, with a text that ends with the fraction and is
    not empty; when the cast is not defined the rendering has no defined
    result, as for the ratings inf and 1e10, both counted as rated. *)
Theorem ratingToStars_empty_iff :
  (forall rating0,
     ratingToStars rating0 = Some "" <->
     rating0 = "" \/ Double.eqb (safeStringToDouble rating0) zero = true) /\
  (forall rating0,
     ratingToStars rating0 = None <->
     rating0 <> "" /\
     Double.eqb (safeStringToDouble rating0) zero = false /\
     to_int (safeStringToDouble rating0) = None) /\
  (forall x : double,
     to_int x = None <->
     is_nan x = true \/ is_inf x = true \/
     exists z, trunc x = Some z /\ (z < - 2 ^ 31 \/ 2 ^ 31 - 1 < z)%Z) /\
  (forall m,
     counted_as_rated m = true ->
     match to_int (rating_value m) with
     | Some _ =>
         exists stars,
           ratingToStars (rating m)
           = Some (stars ++ " (" ++ rating m ++ "/5)")
     | None => ratingToStars (rating m) = None
     end) /\
  (forall m text,
     counted_as_rated m = true ->
     ratingToStars (rating m) = Some text -> text <> "") /\
  counted_as_rated (rated "inf") = true /\
  ratingToStars "inf" = None /\
  counted_as_rated (rated "1e10") = true /\
  ratingToStars "1e10" = None.
Proof.
  assert (Hrated : forall m, counted_as_rated m = true ->
            rating m <> "" /\
            Double.eqb (safeStringToDouble (rating m)) zero = false).
  { intros m Hc. unfold counted_as_rated in Hc.
    apply andb_true_iff in Hc. destruct Hc as [Hne Hgt]. split.
    - intros E. rewrite E in Hne. discriminate Hne.
    - exact (gtb_zero_not_eqb _ Hgt). }
  split; [|split; [|split; [|split; [|split; [|split; [|split; [|split]]]]]]].
  - intros rating0. unfold ratingToStars.
    destruct rating0 as [|c r]; cbn [empty].
    + split; auto.
    + destruct (Double.eqb (safeStringToDouble (String c r)) zero) eqn:E.
      * split; auto.
      * destruct (to_int (safeStringToDouble (String c r))) as [n|].
        -- split; [intros [= H]|intros [H|H]; discriminate].
           exfalso. revert H.
           change (" (" ++ String c r ++ "/5)")
             with (String " " ("(" ++ String c r ++ "/5)")).
           apply string_app_not_empty.
        -- split; [discriminate|intros [H|H]; discriminate].
  - intros rating0. unfold ratingToStars.
    destruct rating0 as [|c r]; cbn [empty].
    + split; [discriminate|]. intros [H _]. congruence.
    + destruct (Double.eqb (safeStringToDouble (String c r)) zero) eqn:E.
      * split; [discriminate|]. intros (_ & H & _). discriminate H.
      * destruct (to_int (safeStringToDouble (String c r))) as [n|].
        -- split; [discriminate|]. intros (_ & _ & H). discriminate H.
        -- split; [|reflexivity]. intros _.
           split; [discriminate|]. split; reflexivity.
  - intros x. unfold to_int.
    destruct x as [s|s| |s m e]; cbn [trunc is_nan is_inf].
    + split; [discriminate|].
      intros [H|[H|(z & [= <-] & H)]]; try discriminate. lia.
    + split; auto.
    + split; auto.
    + remember (cond_Zopp s match e with
                            | Z.neg p => Z.shiftr (Z.pos m) (Z.pos p)
                            | _ => Z.shiftl (Z.pos m) e
                            end) as z eqn:Ez.
      destruct ((- 2 ^ 31 <=? z) && (z <=? 2 ^ 31 - 1))%Z eqn:Er.
      * split; [discriminate|].
        intros [H|[H|(z' & [= <-] & H)]]; try discriminate.
        apply andb_true_iff in Er. lia.
      * split; [|reflexivity]. intros _. right. right. exists z.
        split; [reflexivity|]. apply andb_false_iff in Er.
        destruct Er as [Er|Er]; [apply Z.leb_gt in Er|apply Z.leb_gt in Er];
          lia.
  - intros m Hc. destruct (Hrated m Hc) as [Hne Hz].
    exact (ratingToStars_nonzero (rating m) Hne Hz).
  - intros m text Hc Hs. destruct (Hrated m Hc) as [Hne Hz].
    pose proof (ratingToStars_nonzero (rating m) Hne Hz) as H.
    destruct (to_int (safeStringToDouble (rating m))) as [n|].
    + destruct H as [stars H]. rewrite H in Hs. injection Hs as <-.
      change (" (" ++ rating m ++ "/5)")
        with (String " " ("(" ++ rating m ++ "/5)")).
      apply string_app_not_empty.
    + rewrite H in Hs. discriminate Hs.
  - vm_compute; reflexivity.
  - vm_compute; reflexivity.
  - vm_compute; reflexivity.
  - vm_compute; reflexivity.
Qed.

Lemma ratingToStars_empty_iff_witness :
  counted_as_rated (rated "4.5") = true /\
  to_int (rating_value (rated "4.5")) = Some 4%Z /\
  (exists stars, ratingToStars "4.5" = Some (stars ++ " (4.5/5)")) /\
  ratingToStars "4.5" <> Some "".
Proof.
  assert (H1 : counted_as_rated (rated "4.5") = true)
    by (vm_compute; reflexivity).
  assert (H2 : to_int (rating_value (rated "4.5")) = Some 4%Z)
    by (vm_compute; reflexivity).
  pose proof ratingToStars_empty_iff as (_ & _ & _ & Hcast & Htext & _).
  pose proof (Hcast (rated "4.5") H1) as H3. rewrite H2 in H3.
  split; [exact H1|]. split; [exact H2|]. split; [exact H3|].
  intros H. exact (Htext (rated "4.5") _ H1 H eq_refl).
Defined.

(** ** [safeStringToDouble]: overflow *)

Lemma scan_digits_nonneg (base : Z) (digit : ascii -> option Z)
    (s : string) :
  (0 <= base)%Z ->
  (forall c d, digit c = Some d -> (0 <= d)%Z) ->
  forall acc n m k rest,
    (0 <= acc)%Z ->
    scan_digits base digit s acc n = (m, k, rest) -> (0 <= m)%Z.
Proof.
  intros Hb Hd. induction s as [|c s IH]; intros acc n m k rest Ha H;
    cbn [scan_digits] in H.
  - injection H as <- _ _. exact Ha.
  - destruct (digit c) as [d|] eqn:Ed.
    + specialize (Hd c d Ed).
      assert (Hacc : (0 <= acc * base + d)%Z) by nia.
      exact (IH _ _ _ _ _ Hacc H).
    + injection H as <- _ _. exact Ha.
Qed.

Lemma hex_digit_nonneg (c : ascii) (d : Z) :
  hex_digit c = Some d -> (0 <= d)%Z.
Proof.
  unfold hex_digit, dec_digit.
  destruct ((48 <=? code c) && (code c <=? 57))%N; [intros [= <-]; lia|].
  destruct ((97 <=? code (tolower c)) && (code (tolower c) <=? 102))%N;
    [intros [= <-]; lia|discriminate].
Qed.

Lemma scan_mantissa_hex_nonneg (s : string) (m nf : Z) (rest : string) :
  scan_mantissa 16 hex_digit s = Some (m, nf, rest) -> (0 <= m)%Z.
Proof.
  unfold scan_mantissa.
  destruct (scan_digits 16 hex_digit s 0 0) as [[m1 n1] r1] eqn:E1.
  assert (H1 : (0 <= m1)%Z).
  { apply (scan_digits_nonneg 16 hex_digit s ltac:(lia) hex_digit_nonneg
             0%Z 0%Z m1 n1 r1 ltac:(lia) E1). }
  assert (Hplain : (if (n1 =? 0)%Z then None else Some (m1, 0%Z, r1))
                   = Some (m, nf, rest) -> (0 <= m)%Z).
  { destruct (n1 =? 0)%Z; [discriminate|]. intros [= <- _ _]. exact H1. }
  destruct r1 as [|c r2]; [exact Hplain|].
  destruct (Ascii.eqb_spec c ".") as [->|Hne].
  - destruct (scan_digits 16 hex_digit r2 m1 0) as [[m2 n2] r3] eqn:E2.
    destruct (n1 + n2 =? 0)%Z; [discriminate|]. intros [= <- _ _].
    apply (scan_digits_nonneg 16 hex_digit r2 ltac:(lia) hex_digit_nonneg
             m1 0%Z m2 n2 r3 H1 E2).
  - destruct c as [[] [] [] [] [] [] [] []]; try exact Hplain.
    now contradiction Hne.
Qed.

Lemma scan_number_inf (r rest : string) :
  scan_number r = Some (NInf, rest) -> strip_prefix_ci "inf" r <> None.
Proof.
  unfold scan_number.
  destruct (strip_prefix_ci "infinity" r) as [r1|] eqn:E1.
  { intros _. exact (strip_infinity_inf r r1 E1). }
  destruct (strip_prefix_ci "inf" r) as [r2|]; [discriminate|].
  destruct (strip_prefix_ci "nan" r); [discriminate|].
  destruct (strip_prefix_ci "0x" r).
  - destruct (scan_mantissa 16 hex_digit s) as [[[m nf] r1]|].
    + destruct (scan_exponent "p" r1). discriminate.
    + discriminate.
  - destruct (scan_mantissa 10 dec_digit r) as [[[m nf] r1]|].
    + destruct (scan_exponent "e" r1). discriminate.
    + discriminate.
Qed.

Lemma scan_number_hex_nonneg (r rest : string) (m e2 : Z) :
  scan_number r = Some (NHex m e2, rest) -> (0 <= m)%Z.
Proof.
  unfold scan_number.
  destruct (strip_prefix_ci "infinity" r); [discriminate|].
  destruct (strip_prefix_ci "inf" r); [discriminate|].
  destruct (strip_prefix_ci "nan" r); [discriminate|].
  destruct (strip_prefix_ci "0x" r) as [s|].
  - destruct (scan_mantissa 16 hex_digit s) as [[[m' nf] r1]|] eqn:E.
    + destruct (scan_exponent "p" r1). intros [= <- _ _].
      exact (scan_mantissa_hex_nonneg _ _ _ _ E).
    + discriminate.
  - destruct (scan_mantissa 10 dec_digit r) as [[[m' nf] r1]|].
    + destruct (scan_exponent "e" r1). discriminate.
    + discriminate.
Qed.



(** ** The columns of a record *)

(** X15.  The eight columns of the record built from a line are the
    first eight fields of the line, with empty strings for the columns
    the line does not have; fields beyond the eighth are ignored. *)
Theorem movie_of_fields_columns (fields : list string) :
  fields_of_movie (movie_of_fields fields)
  = firstn 8 (fields ++ repeat "" 8)%list.
Proof.
  do 8 (destruct fields as [|? fields]; [reflexivity|]). reflexivity.
Qed.

Lemma movie_of_fields_in (fields : list string) (f : string) :
  In f (fields_of_movie (movie_of_fields fields)) -> f = "" \/ In f fields.
Proof.
  unfold fields_of_movie, movie_of_fields. cbn [date name year letterboxdURI
    rating rewatch tags watchedDate In].
  intros H.
  repeat match type of H with
  | _ \/ _ => destruct H as [H|H]
  end; try contradiction; subst f;
  match goal with
  | |- nth ?k _ _ = _ \/ _ =>
      destruct (nth_in_or_default k fields "") as [Hin|Hd];
        [right; exact Hin|left; exact Hd]
  end.
Qed.

Lemma parseCSVLine_fields_clean (line f : string) :
  In f (parseCSVLine line) -> mem quote f = false /\ trim f = f.
Proof.
  intros Hin. unfold parseCSVLine in Hin.
  destruct (parse_loop_quote_free line parse_init) as [Hf Hfs].
  { split; [reflexivity|constructor]. }
  pose proof (parse_loop_trimmed line parse_init (Forall_nil _)) as Ht.
  rewrite Forall_forall in Hfs, Ht.
  apply in_app_or in Hin. destruct Hin as [Hin|[<-|[]]].
  - split; [now apply Hfs|now apply Ht].
  - split; [now apply trim_quote_free|apply trim_idem].
Qed.

(** X16.  Every column of every record the reader returns is free of
    quotes and trimmed: it neither contains a quote nor begins or ends
    with white space. *)
Theorem reader_columns_clean (fs : FileSystem) (filename : string)
    (m : Movie) (f : string) :
  In m (rr_movies (readLetterboxdCSV fs filename)) ->
  In f (fields_of_movie m) ->
  mem quote f = false /\ trim f = f.
Proof.
  unfold readLetterboxdCSV. destruct (fs filename) as [content|].
  2: { intros []. }
  cbn [rr_movies]. rewrite reader_loop_movies.
  intros Hm Hf. apply in_map_iff in Hm. destruct Hm as (l & <- & _).
  apply movie_of_fields_in in Hf. destruct Hf as [->|Hf].
  - split; reflexivity.
  - exact (parseCSVLine_fields_clean _ _ Hf).
Qed.

Lemma reader_columns_clean_witness :
  In (mkMovie "2024-01-01" "Heat" "" "" "" "" "" "")
     (rr_movies (readLetterboxdCSV (one_file "diary.csv" diary_one)
                   "diary.csv")) /\
  In "Heat" (fields_of_movie (mkMovie "2024-01-01" "Heat" "" "" "" "" "" "")) /\
  mem quote "Heat" = false /\ trim "Heat" = "Heat".
Proof.
  assert (H1 : In (mkMovie "2024-01-01" "Heat" "" "" "" "" "" "")
                 (rr_movies (readLetterboxdCSV
                               (one_file "diary.csv" diary_one)
                               "diary.csv")))
    by (vm_compute; left; reflexivity).
  assert (H2 : In "Heat" (fields_of_movie
                            (mkMovie "2024-01-01" "Heat" "" "" "" "" "" "")))
    by (cbn; right; left; reflexivity).
  split; [exact H1|]. split; [exact H2|].
  exact (reader_columns_clean _ _ _ _ H1 H2).
Defined.

(** ** The last line of a file *)

Lemma getlines_from_last (l : string) :
  mem lf l = false ->
  forall acc,
    getlines_from l acc = if empty (acc ++ l) then [] else [acc ++ l].
Proof.
  induction l as [|c l IH]; intros Hl acc.
  - cbn [getlines_from]. now rewrite string_append_nil_r.
  - cbn [mem] in Hl. apply orb_false_iff in Hl. destruct Hl as [Hc Hl].
    cbn [getlines_from]. rewrite (Ascii.eqb_sym c lf), Hc, (IH Hl).
    unfold push_char, str1. now rewrite string_app_assoc.
Qed.

Lemma getlines_from_unlines (lines : list string) (rest : string) :
  Forall (fun l => mem lf l = false) lines ->
  getlines_from (unlines lines ++ rest) ""
  = (lines ++ getlines_from rest "")%list.
Proof.
  induction 1 as [|l lines Hl _ IH]; [reflexivity|].
  cbn [unlines]. rewrite !string_app_assoc.
  rewrite (getlines_from_line l _ Hl). cbn [append app]. now rewrite IH.
Qed.

(** X17.  The last line needs no line feed: a file whose last line is
    not terminated gives the same records and the same console output as
    the file with the terminator. *)
Theorem unterminated_last_line (fs fs' : FileSystem) (filename : string)
    (lines : list string) (l : string) :
  fs filename = Some (unlines lines ++ l ++ nl) ->
  fs' filename = Some (unlines lines ++ l) ->
  Forall (fun x => mem lf x = false) lines ->
  mem lf l = false ->
  l <> "" ->
  readLetterboxdCSV fs' filename = readLetterboxdCSV fs filename.
Proof.
  intros Hfs Hfs' Hlines Hl Hne. unfold readLetterboxdCSV.
  rewrite Hfs, Hfs'. unfold getlines.
  rewrite !getlines_from_unlines by exact Hlines.
  rewrite (getlines_from_line l "" Hl), (getlines_from_last l Hl).
  cbn [append getlines_from empty].
  destruct l as [|c l]; [congruence|reflexivity].
Qed.

Lemma unterminated_last_line_witness :
  Forall (fun x => mem lf x = false) ["Date,Name"] /\
  mem lf "2024-01-01,Heat" = false /\
  "2024-01-01,Heat" <> "" /\
  readLetterboxdCSV
    (one_file "diary.csv" (unlines ["Date,Name"] ++ "2024-01-01,Heat"))
    "diary.csv"
  = readLetterboxdCSV
      (one_file "diary.csv"
         (unlines ["Date,Name"] ++ "2024-01-01,Heat" ++ nl))
      "diary.csv".
Proof.
  assert (H1 : Forall (fun x => mem lf x = false) ["Date,Name"])
    by (constructor; [reflexivity|constructor]).
  assert (H2 : mem lf "2024-01-01,Heat" = false) by reflexivity.
  assert (H3 : "2024-01-01,Heat" <> "") by discriminate.
  split; [exact H1|]. split; [exact H2|]. split; [exact H3|].
  exact (unterminated_last_line _ _ "diary.csv" ["Date,Name"]
           "2024-01-01,Heat" eq_refl eq_refl H1 H2 H3).
Defined.
